(** * metaes: a shallow embedding of the meta-function bridge, the base
      evaluators and the evaluation context.

    The interpreter is written in continuation-passing style over a host
    (JavaScript) runtime.  The embedding keeps that shape: host code is a
    computation in a state-and-exception monad, continuations are monadic
    functions, and host [throw] / [try]-[catch] are the monad's [throw] and
    [try_catch]. *)

From stdpp Require Import base gmap strings list pretty.

Set Default Proof Using "Type".
Set Warnings "-register-all".

(** ** AST nodes

    The parser hands the evaluator plain objects with a [type] string and
    kind-specific fields; the code dispatches on [type] and reads the fields
    it needs.  A field that the object does not have is [None] (the host's
    [undefined]). *)

Inductive Node : Type :=
  mkNode {
    type : string;
    name : option string;
    argument : option Node;
    params : list Node;
    body : option Node
  }.

Definition Identifier_node (x : string) : Node :=
  mkNode "Identifier" (Some x) None [] None.
Definition RestElement_node (a : Node) : Node :=
  mkNode "RestElement" None (Some a) [] None.
Definition Plain_node (ty : string) : Node :=
  mkNode ty None None [] None.
Definition Function_node (ps : list Node) (b : Node) : Node :=
  mkNode "FunctionExpression" None None ps (Some b).

(** ** Host values

    Numbers are restricted to the integers (no arithmetic is performed on
    them by the code embedded here, only truthiness tests).  Objects are
    property lists; the exception packets of the interpreter are objects with
    the properties ["type"], ["value"] and ["location"]. *)

Inductive Value : Type :=
| VUndefined
| VNull
| VBool (b : bool)
| VNum (n : Z)
| VStr (s : string)
| VArray (items : list Value)
| VObject (fields : list (string * Value))
| VNode (n : Node).

(** Lexical environments: [{ values, prev }]. *)
Inductive Environment : Type :=
  mkEnv { values : gmap string Value; prev : option Environment }.

Fixpoint assoc_get (k : string) (fs : list (string * Value)) : option Value :=
  match fs with
  | [] => None
  | (k', v) :: fs' => if String.eqb k k' then Some v else assoc_get k fs'
  end.

Fixpoint assoc_set (k : string) (v : Value) (fs : list (string * Value))
  : list (string * Value) :=
  match fs with
  | [] => [(k, v)]
  | (k', v') :: fs' =>
      if String.eqb k k' then (k, v) :: fs' else (k', v') :: assoc_set k v fs'
  end.

(** Host truthiness, as tested by [if (x)] and [!x]. *)
Definition truthy (v : Value) : bool :=
  match v with
  | VUndefined | VNull => false
  | VBool b => b
  | VNum n => negb (n =? 0)%Z
  | VStr s => negb (String.eqb s "")
  | VArray _ | VObject _ | VNode _ => true
  end.

(** The host's [TypeError], raised when a property of [undefined] or [null]
    is read or written, or when a property is written on a primitive in
    strict (module) code. *)
Definition TypeError (message : string) : Value :=
  VObject [("name", VStr "TypeError"); ("message", VStr message)].

(** The property key the host derives from an optional name: a missing name
    is the key ["undefined"]. *)
Definition prop_key (n : option string) : string := default "undefined" n.

(** Strict equality [v === "s"] of a value with a string literal, as a
    [switch] with string cases tests it. *)
Definition strict_eq_str (v : Value) (s : string) : bool :=
  match v with
  | VStr s' => String.eqb s' s
  | _ => false
  end.

(** Modelled from the spec: [NotImplementedException] (module [exceptions])
    is missing; the spec describes it as an exception packet carrying a
    [NotImplementedException] tag, built from a message and, optionally, the
    node it is raised for. *)
Definition NotImplementedException (message : string) (location : option Node)
  : Value :=
  VObject [("type", VStr "NotImplementedException");
           ("message", VStr message);
           ("location", from_option VNode VUndefined location)].

(** ** The host monad: state plus exceptions *)

Inductive Outcome (A : Type) : Type :=
| Normal (a : A)
| Thrown (x : Value).
Arguments Normal {A} a.
Arguments Thrown {A} x.

Definition M (S A : Type) : Type := S -> Outcome A * S.

Section HostMonad.
Context {S : Type}.

Definition ret {A} (a : A) : M S A := fun s => (Normal a, s).

Definition bind {A B} (m : M S A) (k : A -> M S B) : M S B :=
  fun s =>
    match m s with
    | (Normal a, s') => k a s'
    | (Thrown x, s') => (Thrown x, s')
    end.

Definition throw {A} (x : Value) : M S A := fun s => (Thrown x, s).

(** [try { m } catch (x) { h x }] *)
Definition try_catch {A} (m : M S A) (h : Value -> M S A) : M S A :=
  fun s =>
    match m s with
    | (Normal a, s') => (Normal a, s')
    | (Thrown x, s') => h x s'
    end.

Definition gets {A} (f : S -> A) : M S A := fun s => (Normal (f s), s).
Definition modify (f : S -> S) : M S unit := fun s => (Normal tt, f s).

(** [g && g(x)]: call an optional callback. *)
Definition call_opt {A} (g : option (A -> M S unit)) (a : A) : M S unit :=
  match g with
  | Some f => f a
  | None => ret tt
  end.

(** Property read [x[k]]. *)
Definition get_prop (x : Value) (k : string) : M S Value :=
  match x with
  | VUndefined | VNull =>
      throw (TypeError ("Cannot read property '" +:+ k +:+ "'"))
  | VObject fs => ret (default VUndefined (assoc_get k fs))
  | VNode n =>
      ret (match k with
           | "type" => VStr (type n)
           | "name" => from_option VStr VUndefined (name n)
           | "argument" => from_option VNode VUndefined (argument n)
           | "body" => from_option VNode VUndefined (body n)
           | "params" => VArray (VNode <$> params n)
           | _ => VUndefined
           end%string)
  | VArray items =>
      ret (match k with
           | "length" => VNum (Z.of_nat (length items))
           | _ => VUndefined
           end%string)
  | VBool _ | VNum _ | VStr _ => ret VUndefined
  end.

(** Property write [x[k] = v]; the result is the object after the write.
    Arrays and nodes accept the write, but the added property is not
    represented. *)
Definition set_prop (x : Value) (k : string) (v : Value) : M S Value :=
  match x with
  | VObject fs => ret (VObject (assoc_set k v fs))
  | VArray _ | VNode _ => ret x
  | VUndefined | VNull =>
      throw (TypeError ("Cannot set property '" +:+ k +:+ "'"))
  | VBool _ | VNum _ | VStr _ =>
      throw (TypeError ("Cannot create property '" +:+ k +:+ "'"))
  end.
End HostMonad.

Declare Scope host_scope.
Delimit Scope host_scope with host.
Notation "'do' x <- m ; k" := (bind m (fun x => k))
  (at level 10, x name, m at level 100, k at level 200) : host_scope.
Notation "'do' '_' <- m ; k" := (bind m (fun _ => k))
  (at level 10, m at level 100, k at level 200) : host_scope.
Open Scope host_scope.

(** ** The behaviour of an evaluator, seen from its continuations

    [evaluate] (the node dispatcher) is not part of the files embedded here.
    What the bridge can observe of it is the sequence of continuation calls
    it makes, whether it lets a host exception escape, and whether it catches
    a host exception thrown by one of its continuations (as [Apply] does). *)

Inductive Body : Type :=
| BReturn
| BThrow (x : Value)
| BSuccess (v : Value) (k : Body)
| BFailure (p : Value) (k : Body)
| BTry (b : Body) (h : Value -> Body) (k : Body).

Section RunBody.
Context {S : Type}.

Fixpoint run (b : Body) (c cerr : Value -> M S unit) : M S unit :=
  match b with
  | BReturn => ret tt
  | BThrow x => throw x
  | BSuccess v k => do _ <- c v; run k c cerr
  | BFailure p k => do _ <- cerr p; run k c cerr
  | BTry b' h k =>
      do _ <- try_catch (run b' c cerr) (fun x => run (h x) c cerr);
      run k c cerr
  end.
End RunBody.

(** ** The meta-function bridge: [evaluateMetaFunction] and
       [createMetaFunctionWrapper] *)

Module MetaFunction.

Inductive Phase : Type := enter | exit.

(** What an interceptor event carries as [value]: on "enter" the bridge
    passes the meta-function itself, on "exit" a host value. *)
Inductive Payload : Type :=
| PMetaFunction (e : Node) (closure : Environment)
| PValue (v : Value).

Record Evaluation : Type := mkEvaluation {
  ev_scriptId : option string;
  ev_e : Node;
  ev_env : Environment;
  ev_value : Payload;
  ev_phase : Phase
}.

(** Calls received by the callbacks that the caller and the configuration
    supply; the trace lists them in the order they happen. *)
Inductive Event : Type :=
| EvC (v : Value)
| EvCerr (x : Value)
| EvOnError (x : Value)
| EvInterceptor (ev : Evaluation).

(** The mutable cells of one invocation: the exit guard of
    [evaluateMetaFunction] and the two locals of the wrapper, together with
    the trace of observed callback calls. *)
Record State : Type := mkState {
  trace : list Event;
  _calledAfterInterceptor : bool;
  result : Value;
  error : Value
}.

Definition set_trace (t : list Event) (s : State) : State :=
  mkState t (_calledAfterInterceptor s) (result s) (error s).
Definition set_calledAfterInterceptor (b : bool) (s : State) : State :=
  mkState (trace s) b (result s) (error s).
Definition set_result (v : Value) (s : State) : State :=
  mkState (trace s) (_calledAfterInterceptor s) v (error s).
Definition set_error (v : Value) (s : State) : State :=
  mkState (trace s) (_calledAfterInterceptor s) (result s) v.

Definition init : State := mkState [] false VUndefined VUndefined.

Record EvaluationConfig : Type := mkConfig {
  interceptor : Evaluation -> M State unit;
  onError : option (Value -> M State unit);
  scriptId : option string
}.

Record MetaesFunction : Type := mkMetaesFunction {
  e : Node;
  closure : Environment;
  config : option EvaluationConfig
}.

(** Modelled from the spec: [callInterceptor] (module [environment]) is
    missing; the spec has it deliver the payload
    [{ scriptId, e, env, value, tag: { phase } }] to [config.interceptor]. *)
Definition callInterceptor (e : Node) (config : EvaluationConfig)
    (value : Payload) (env : Environment) (phase : Phase) : M State unit :=
  interceptor config (mkEvaluation (scriptId config) e env value phase).

(** [config && config.onError && config.onError(x)] *)
Definition notify_onError (config : option EvaluationConfig) (x : Value)
  : M State unit :=
  match config with
  | Some cfg => call_opt (onError cfg) x
  | None => ret tt
  end.

Section Bridge.
(** The node dispatcher, as the behaviour it shows for a node, a frame
    and a configuration. *)
Variable evaluate :
  option Node -> Environment -> option EvaluationConfig -> Body.

(** The [for (let param of e.params)] loop with its [switch]; [i] is the
    running index into [args], [vals] is [env.values]. *)
Fixpoint bindParams (config : option EvaluationConfig) (args : list Value)
    (ps : list Node) (i : nat) (vals : gmap string Value)
  : M State (gmap string Value) :=
  match ps with
  | [] => ret vals
  | param :: ps' =>
      if String.eqb (type param) "Identifier" then
        bindParams config args ps' (S i)
          (<[prop_key (name param) := default VUndefined (args !! i)]> vals)
      else if String.eqb (type param) "RestElement" then
        match argument param with
        | Some a =>
            bindParams config args ps' i
              (<[prop_key (name a) := VArray (drop i args)]> vals)
        | None => throw (TypeError "Cannot read property 'name'")
        end
      else
        let error :=
          NotImplementedException
            ("Not supported type (" +:+ type param +:+
             ") of function param.") (Some param) in
        do _ <- notify_onError config error;
        throw error
  end.

Definition _interceptorAfter (config : option EvaluationConfig)
    (e : Node) (value : Value) (env : Environment) : M State unit :=
  do called <- gets _calledAfterInterceptor;
  if called : bool then ret tt
  else
    do _ <- match config with
            | Some cfg => callInterceptor e cfg (PValue value) env exit
            | None => ret tt
            end;
    modify (set_calledAfterInterceptor true).

(** The success continuation handed to [evaluate]:
    [result => { c(result); _interceptorAfter(e, result, env); }] *)
Definition body_c (config : option EvaluationConfig) (e : Node)
    (env : Environment) (c : Value -> M State unit) (result : Value)
  : M State unit :=
  do _ <- c result;
  _interceptorAfter config e result env.

(** The error continuation handed to [evaluate], with its [switch] on
    [exception.type]. *)
Definition body_cerr (config : option EvaluationConfig) (e : Node)
    (env : Environment) (c cerr : Value -> M State unit)
    (exception : Value) : M State unit :=
  do ty <- get_prop exception "type";
  if strict_eq_str ty "ReturnStatement" then
    do v <- get_prop exception "value";
    do _ <- c v;
    do v' <- get_prop exception "value";
    _interceptorAfter config e v' env
  else
    do located <- set_prop exception "location" (VNode e);
    do _ <- cerr located;
    do v <- get_prop located "value";
    throw v.

Definition evaluateMetaFunction (metaFunction : MetaesFunction)
    (c cerr : Value -> M State unit) (thisObject : Value)
    (args : list Value) : M State unit :=
  let '(mkMetaesFunction e closure config) := metaFunction in
  try_catch
    (do vals <- bindParams config args (params e) 0
                  (<["arguments" := VArray args]>
                     (<["this" := thisObject]> ∅));
     let env := mkEnv vals (Some closure) in
     do _ <- match config with
             | Some cfg =>
                 callInterceptor e cfg (PMetaFunction e closure) env enter
             | None => ret tt
             end;
     do _ <- modify (set_calledAfterInterceptor false);
     run (evaluate (body e) env config)
       (body_c config e env c) (body_cerr config e env c cerr))
    (fun e => cerr e).

(** The host callable [function (this, ...args)] that
    [createMetaFunctionWrapper(metaFunction)] returns. *)
Definition createMetaFunctionWrapper (metaFunction : MetaesFunction)
    (this : Value) (args : list Value) : M State Value :=
  let config := config metaFunction in
  do _ <- modify (set_result VUndefined);
  do _ <- modify (set_error VUndefined);
  do _ <- evaluateMetaFunction metaFunction
            (fun r => modify (set_result r))
            (fun exception =>
               do v <- get_prop exception "value";
               do _ <- modify (set_error v);
               notify_onError config exception)
            this args;
  do error <- gets error;
  if truthy error then throw error else gets result.

Definition createMetaFunction (e : Node) (closure : Environment)
    (config : option EvaluationConfig) :=
  createMetaFunctionWrapper (mkMetaesFunction e closure config).
End Bridge.

(** *** Observing callbacks: each records the call and returns. *)

Definition emit (ev : Event) : M State unit :=
  modify (fun s => set_trace (trace s ++ [ev]) s).

Definition observed_c (v : Value) : M State unit := emit (EvC v).
Definition observed_cerr (x : Value) : M State unit := emit (EvCerr x).

Definition observed_config (with_onError : bool) (sid : option string)
  : EvaluationConfig :=
  mkConfig (fun ev => emit (EvInterceptor ev))
           (if with_onError then Some (fun x => emit (EvOnError x)) else None)
           sid.

(** The configurations a meta-function is observed under: none at all, or
    an observing one with or without [onError]. *)
Inductive ConfigShape : Type :=
| NoConfig
| Observed (with_onError : bool) (sid : option string).

Definition config_of (sh : ConfigShape) : option EvaluationConfig :=
  match sh with
  | NoConfig => None
  | Observed b sid => Some (observed_config b sid)
  end.

(** An exception packet [{ type, value }]. *)
Definition packet (ty : string) (v : Value) : Value :=
  VObject [("type", VStr ty); ("value", v)].

(** Number of "exit" interceptor events in a trace. *)
Definition is_exit (ev : Event) : bool :=
  match ev with
  | EvInterceptor x => match ev_phase x with exit => true | enter => false end
  | _ => false
  end.

Definition exits (t : list Event) : nat := length (List.filter is_exit t).

(** How many more "exit" events the guard still lets through. *)
Definition budget (s : State) : nat :=
  if _calledAfterInterceptor s then 0 else 1.

(** [s'] continues [s]: the trace has grown, and the "exit" events added
    were paid for out of the budget. *)
Definition advances (s s' : State) : Prop :=
  exists evs, trace s' = trace s ++ evs /\ exits evs + budget s' <= budget s.

(** A computation that respects the guard from every state. *)
Definition steady {A} (m : M State A) : Prop :=
  forall s, advances s (snd (m s)).

(** A computation that adds at most [n] "exit" events. *)
Definition emits_at_most {A} (n : nat) (m : M State A) : Prop :=
  forall s, exists evs, trace (snd (m s)) = trace s ++ evs /\ exits evs <= n.

(** The events that the configuration's callbacks record. *)
Definition onError_events (sh : ConfigShape) (x : Value) : list Event :=
  match sh with
  | Observed true _ => [EvOnError x]
  | _ => []
  end.

Definition interceptor_events (sh : ConfigShape) (e : Node)
    (env : Environment) (value : Payload) (phase : Phase) : list Event :=
  match sh with
  | Observed _ sid => [EvInterceptor (mkEvaluation sid e env value phase)]
  | NoConfig => []
  end.

(** The frame that [evaluateMetaFunction] starts from. *)
Definition initial_values (thisObject : Value) (args : list Value)
  : gmap string Value :=
  <["arguments" := VArray args]> (<["this" := thisObject]> ∅).

(** Concrete inputs. *)
Definition rest_first : list Node :=
  [RestElement_node (Identifier_node "r"); Identifier_node "x"].

Definition sample_fn (ps : list Node) : Node :=
  Function_node ps (Plain_node "BlockStatement").

Definition sample_metaFunction (ps : list Node) (sh : ConfigShape)
  : MetaesFunction :=
  mkMetaesFunction (sample_fn ps) (mkEnv ∅ None) (config_of sh).

(** *** Parameters, as the loop reads them *)

Definition is_Identifier (p : Node) : bool := String.eqb (type p) "Identifier".
Definition is_RestElement (p : Node) : bool := String.eqb (type p) "RestElement".

(** A parameter the loop binds: an [Identifier], or a [RestElement] that
    carries its [argument], as the node type has it. *)
Definition supported (p : Node) : bool :=
  is_Identifier p || (is_RestElement p && bool_decide (is_Some (argument p))).

(** A parameter of any other pattern type. *)
Definition unsupported (p : Node) : bool :=
  negb (is_Identifier p) && negb (is_RestElement p).

(** The name a supported parameter binds: [param.name], or
    [param.argument.name] for a rest element. *)
Definition param_key (p : Node) : string :=
  if is_Identifier p then prop_key (name p)
  else prop_key (from_option name None (argument p)).

(** The value a supported parameter receives when the index is [i]. *)
Definition param_value (args : list Value) (i : nat) (p : Node) : Value :=
  if is_Identifier p then default VUndefined (args !! i)
  else VArray (drop i args).

Definition count_Identifier (ps : list Node) : nat :=
  length (List.filter is_Identifier ps).

(** The parameter walk as the specification words it: a [RestElement]
    binds the remaining arguments and ends the walk. *)
Fixpoint bindParams_spec (args : list Value) (ps : list Node) (i : nat)
    (vals : gmap string Value) : gmap string Value :=
  match ps with
  | [] => vals
  | p :: ps' =>
      if is_Identifier p then
        bindParams_spec args ps' (S i) (<[param_key p := param_value args i p]> vals)
      else if is_RestElement p then
        <[param_key p := param_value args i p]> vals
      else vals
  end.

End MetaFunction.

(** ** The base evaluators: [Identifier], [Apply], [GetProperty],
       [SetProperty] *)

Module Base.

Inductive Event : Type :=
| EvC (v : Value)
| EvCerr (x : Value).

(** Host objects that the evaluators read and write live in a store and
    are passed by reference.  They are plain records of data properties (no
    accessors, not frozen), so that reading and writing a property never
    throws.  A reference always denotes a live object in the host; a location
    the store does not hold reads as an object with no properties. *)
Record State : Type := mkState {
  trace : list Event;
  heap : gmap nat (gmap string Value)
}.

Definition emit (ev : Event) : M State unit :=
  modify (fun s => mkState (trace s ++ [ev]) (heap s)).

Definition observed_c (v : Value) : M State unit := emit (EvC v).
Definition observed_cerr (x : Value) : M State unit := emit (EvCerr x).

Definition properties (h : gmap nat (gmap string Value)) (object : nat)
  : gmap string Value :=
  default ∅ (h !! object).

(** [object[property]] *)
Definition read (object : nat) (property : string) (s : State) : Value :=
  default VUndefined (properties (heap s) object !! property).

(** [object[property] = v] *)
Definition write (object : nat) (property : string) (v : Value) (s : State)
  : State :=
  mkState (trace s)
    (<[object := <[property := v]> (properties (heap s) object)]> (heap s)).

(** The chain of frames that a lookup walks, innermost first. *)
Fixpoint chain (env : Environment) : list Environment :=
  match env with
  | mkEnv vals prev =>
      mkEnv vals prev ::
      match prev with
      | Some p => chain p
      | None => []
      end
  end.

Fixpoint lookup_chain (name : string) (env : Environment) : option Value :=
  match env with
  | mkEnv vals prev =>
      match vals !! name with
      | Some v => Some v
      | None =>
          match prev with
          | Some p => lookup_chain name p
          | None => None
          end
      end
  end.

(** The packet reported for an unbound name. *)
Definition ReferenceError (name : string) : Value :=
  VObject [("type", VStr "ReferenceError");
           ("value", VObject [("name", VStr "ReferenceError");
                              ("message", VStr (name +:+ " is not defined."))])].

(** Modelled from the spec: [getValue] (module [environment]) is missing;
    the spec has it walk [prev] until the name is found and answer Unbound
    when the chain ends, the evaluator then reporting a reference-error
    packet through [cerr]. *)
Definition getValue (name : string) (c cerr : Value -> M State unit)
    (env : Environment) : M State unit :=
  match lookup_chain name env with
  | Some v => c v
  | None => cerr (ReferenceError name)
  end.

Definition Identifier (e : Node) (c cerr : Value -> M State unit)
    (env : Environment) : M State unit :=
  getValue (prop_key (name e)) c
    (fun exception =>
       do located <- set_prop exception "location" (VNode e);
       cerr located)
    env.

Definition Apply (fn : Value -> list Value -> M State Value)
    (thisObj : Value) (args : list Value) (c cerr : Value -> M State unit)
  : M State unit :=
  try_catch (do r <- fn thisObj args; c r) (fun e => cerr e).


(** The binary operators of the host behind the compound assignments. *)
Inductive HostOp : Type :=
| Add | Sub | Mul | Div | Rem | Shl | Shr | UShr | BitAnd | BitOr | BitXor.

Section SetProperty.
(** The host's arithmetic on its values (double-precision numbers,
    string concatenation, coercions) is taken as given. *)
Variable host_binop : HostOp -> Value -> Value -> Value.

(** [object[property] = value], an expression whose value is [value]. *)
Definition assign (object : nat) (property : string) (value : Value)
  : M State Value :=
  do _ <- modify (write object property value);
  ret value.

(** [object[property] op= value], an expression whose value is the
    value stored. *)
Definition compound_assign (op : HostOp) (object : nat)
    (property : string) (value : Value) : M State Value :=
  do old <- gets (read object property);
  assign object property (host_binop op old value).

Definition SetProperty (object : nat) (property : string) (value : Value)
    (operator : string) (c cerr : Value -> M State unit) : M State unit :=
  if String.eqb operator "=" then
    do r <- assign object property value; c r
  else if String.eqb operator "+=" then
    do r <- compound_assign Add object property value; c r
  else if String.eqb operator "-=" then
    do r <- compound_assign Sub object property value; c r
  else if String.eqb operator "*=" then
    do r <- compound_assign Mul object property value; c r
  else if String.eqb operator "/=" then
    do r <- compound_assign Div object property value; c r
  else if String.eqb operator "%=" then
    do r <- compound_assign Rem object property value; c r
  else if String.eqb operator "<<=" then
    do r <- compound_assign Shl object property value; c r
  else if String.eqb operator ">>=" then
    do r <- compound_assign Shr object property value; c r
  else if String.eqb operator ">>>=" then
    do r <- compound_assign UShr object property value; c r
  else if String.eqb operator "&=" then
    do r <- compound_assign BitAnd object property value; c r
  else if String.eqb operator "|=" then
    do r <- compound_assign BitOr object property value; c r
  else if String.eqb operator "^=" then
    do r <- compound_assign BitXor object property value; c r
  else
    cerr (NotImplementedException
            ("Operator '" +:+ operator +:+ "' is not supported.") None).

(** The operator set of the specification, each with the host operator
    its compound assignment applies ([None] for plain [=]). *)
Definition assignment_operators : list (string * option HostOp) :=
  [("=", None); ("+=", Some Add); ("-=", Some Sub); ("*=", Some Mul);
   ("/=", Some Div); ("%=", Some Rem); ("<<=", Some Shl);
   (">>=", Some Shr); (">>>=", Some UShr);
   ("&=", Some BitAnd); ("|=", Some BitOr); ("^=", Some BitXor)].

(** The value that [object[property] op= value] stores, by the table. *)
Definition assigned (op : option HostOp) (old value : Value) : Value :=
  match op with
  | None => value
  | Some o => host_binop o old value
  end.
End SetProperty.

(** The host's arithmetic on integer operands, for the operators that are
    exact integer arithmetic there; concrete runs use no other case. *)
Definition Z_binop (op : HostOp) (a b : Value) : Value :=
  match a, b with
  | VNum x, VNum y =>
      match op with
      | Add => VNum (x + y)
      | Sub => VNum (x - y)
      | Mul => VNum (x * y)
      | BitAnd => VNum (Z.land x y)
      | BitOr => VNum (Z.lor x y)
      | BitXor => VNum (Z.lxor x y)
      | _ => VUndefined
      end
  | _, _ => VUndefined
  end.

(** Concrete inputs. *)
Definition init : State := mkState [] ∅.

Definition sample_env : Environment :=
  mkEnv {["a" := VNum 1]} (Some (mkEnv {["a" := VNum 7]} None)).

Definition sample_state : State := mkState [] {[0 := {["n" := VNum 40]}]}.

End Base.

(** ** The evaluation context: [metaesEval] and [MetaesContext] *)

Module Metaes.

(** Host functions stored in a configuration are compared by identity
    only; [noop] is the function that [metaesEval] installs. *)
Inductive HostFn : Type :=
| noop
| host_fn (id : nat).

(** A configuration object, [Partial<EvaluationConfig>]: every property
    may be absent. *)
Record ConfigObj : Type := mkConfigObj {
  interceptor : option HostFn;
  scriptId : option string;
  onError : option HostFn
}.

(** The object literal [{}]. *)
Definition empty_config : ConfigObj := mkConfigObj None None None.

Inductive Source : Type :=
| SourceNode (node : Node)
| SourceFunction (text : string)
| SourceText (text : string).

Record ParseOptions : Type := mkParseOptions { loc : bool; range : bool }.

(** The [environment] argument of [metaesEval]: an object that has a
    ["values"] property is a frame, any other object is a plain record of
    bindings. *)
Inductive EnvArg : Type :=
| Frame (env : Environment)
| Bindings (vals : gmap string Value).

Record EnvironmentBase : Type := mkEnvironmentBase {
  base_values : gmap string Value
}.

Inductive Event : Type :=
| EvC (v : Value)
| EvCerr (x : Value)
| EvEvaluate (node : Node) (env : Environment) (config : nat)
             (snapshot : ConfigObj).

(** Configuration objects are mutable and shared by reference: the store
    holds them, a reference is an index, a new object is appended. *)
Record State : Type := mkState {
  scriptIdsCounter : nat;
  heap : list ConfigObj;
  trace : list Event
}.

Definition emit (ev : Event) : M State unit :=
  modify (fun s => mkState (scriptIdsCounter s) (heap s) (trace s ++ [ev])).

Definition observed_c (v : Value) : M State unit := emit (EvC v).
Definition observed_cerr (x : Value) : M State unit := emit (EvCerr x).

Definition alloc (o : ConfigObj) : M State nat :=
  fun s =>
    (Normal (length (heap s)),
     mkState (scriptIdsCounter s) (heap s ++ [o]) (trace s)).

Definition deref (r : nat) : M State ConfigObj :=
  gets (fun s => default empty_config (heap s !! r)).

Definition update (r : nat) (f : ConfigObj -> ConfigObj) : M State unit :=
  modify (fun s =>
    mkState (scriptIdsCounter s)
            (<[r := f (default empty_config (heap s !! r))]> (heap s))
            (trace s)).

Definition set_interceptor (f : HostFn) (o : ConfigObj) : ConfigObj :=
  mkConfigObj (Some f) (scriptId o) (onError o).
Definition set_scriptId (id : string) (o : ConfigObj) : ConfigObj :=
  mkConfigObj (interceptor o) (Some id) (onError o).

(** [scriptIdsCounter++] *)
Definition next_scriptId : M State nat :=
  fun s =>
    (Normal (scriptIdsCounter s),
     mkState (S (scriptIdsCounter s)) (heap s) (trace s)).

(** [!config.scriptId]: the id is absent or the empty string. *)
Definition no_scriptId (o : ConfigObj) : bool :=
  match scriptId o with
  | None => true
  | Some id => String.eqb id ""
  end.

(** [a || b] on optional callbacks. *)
Definition or_else {A} (a b : option A) : option A :=
  match a with
  | Some x => Some x
  | None => b
  end.

Section Evaluation.
(** The external parser; [inr x] is a parse that throws [x]. *)
Variable parse : string -> option ParseOptions -> Node + Value.
(** The node dispatcher, as the behaviour it shows for a node, a frame
    and the configuration it is handed. *)
Variable evaluate : Node -> Environment -> ConfigObj -> Body.

Definition parseFunction (text : string) : Node + Value :=
  parse ("(" +:+ text +:+ ")") (Some (mkParseOptions false false)).

(** [typeof source === "object" ? source : typeof source === "function" ?
    parseFunction(source) : parse(source)] *)
Definition source_node (source : Source) : Node + Value :=
  match source with
  | SourceNode node => inl node
  | SourceFunction text => parseFunction text
  | SourceText text => parse text None
  end.

Definition resolve (source : Source) : M State Node :=
  match source_node source with
  | inl node => ret node
  | inr x => throw x
  end.

Definition metaesEval (source : Source)
    (c cerr : option (Value -> M State unit))
    (environment : option EnvArg) (config : option nat) : M State unit :=
  let environment := default (Bindings ∅) environment in
  do config <- match config with
               | Some r => ret r
               | None => alloc empty_config
               end;
  do o <- deref config;
  do _ <- (if interceptor o is Some _ then ret tt
           else update config (set_interceptor noop));
  try_catch
    (do node <- resolve source;
     let env := match environment with
                | Frame env => env
                | Bindings vals => mkEnv vals None
                end in
     do o <- deref config;
     do _ <- (if no_scriptId o then
                do n <- next_scriptId;
                update config (set_scriptId (pretty n))
              else ret tt);
     do snapshot <- deref config;
     do _ <- emit (EvEvaluate node env config snapshot);
     run (evaluate node env snapshot)
       (fun val => call_opt c val)
       (fun exception => call_opt cerr exception))
    (fun e =>
       match cerr with
       | Some f => f e
       | None => throw e
       end).

Record MetaesContext : Type := mkMetaesContext {
  ctx_c : option (Value -> M State unit);
  ctx_cerr : option (Value -> M State unit);
  ctx_environment : Environment;
  ctx_config : nat
}.

(** The method [MetaesContext.evaluate]. *)
Definition MetaesContext_evaluate (this : MetaesContext) (source : Source)
    (c cerr : option (Value -> M State unit))
    (environment : option EnvironmentBase) (config : option nat)
  : M State unit :=
  let env :=
    match environment with
    | Some base => mkEnv (base_values base) (Some (ctx_environment this))
    | None => ctx_environment this
    end in
  do o <- deref (default (ctx_config this) config);
  do copy <- alloc o;
  metaesEval source (or_else c (ctx_c this)) (or_else cerr (ctx_cerr this))
    (Some (Frame env)) (Some copy).
End Evaluation.


(** What the two guarded writes of [metaesEval] make of a configuration. *)
Definition with_interceptor (o : ConfigObj) : ConfigObj :=
  if interceptor o is Some _ then o else set_interceptor noop o.

Definition with_scriptId (n : nat) (o : ConfigObj) : ConfigObj :=
  if no_scriptId o then set_scriptId (pretty n) o else o.

(** The frame that [metaesEval] evaluates in. *)
Definition frame_of (environment : option EnvArg) : Environment :=
  match default (Bindings ∅) environment with
  | Frame env => env
  | Bindings vals => mkEnv vals None
  end.

(** An optional observing callback. *)
Definition callback (supplied : bool) (f : Value -> M State unit)
  : option (Value -> M State unit) :=
  if supplied then Some f else None.

(** The configurations under which [evaluate] was dispatched, in order. *)
Definition dispatched (t : list Event) : list ConfigObj :=
  omap (fun ev => match ev with
                  | EvEvaluate _ _ _ snapshot => Some snapshot
                  | _ => None
                  end) t.

(** A computation that touches neither the configuration objects nor the
    counter, and dispatches nothing. *)
Definition quiet {A} (m : M State A) : Prop :=
  forall s,
    scriptIdsCounter (snd (m s)) = scriptIdsCounter s /\
    heap (snd (m s)) = heap s /\
    exists evs, trace (snd (m s)) = trace s ++ evs /\ dispatched evs = [].

(** Concrete inputs: a parser that rejects every text, a pre-parsed
    program, a dispatcher that answers with a value. *)
Definition failing_parse (text : string) (options : option ParseOptions)
  : Node + Value :=
  inr (VObject [("name", VStr "SyntaxError")]).

Definition program : Node := Plain_node "Program".

Definition answer (v : Value) (node : Node) (env : Environment)
    (config : ConfigObj) : Body :=
  BSuccess v BReturn.


(** A store holding the context's default configuration (with an
    interceptor of its own) and a configuration supplied by a caller. *)
Definition sample_state : State :=
  mkState 0 [mkConfigObj (Some (host_fn 1)) None None;
             mkConfigObj None (Some "s") None] [].

End Metaes.

(** The host exception, if any, that an evaluator lets escape when its
    continuations return: a [try] turns the exception of its block into the
    behaviour of its handler. *)
Fixpoint escapes (b : Body) : option Value :=
  match b with
  | BReturn => None
  | BThrow x => Some x
  | BSuccess _ k => escapes k
  | BFailure _ k => escapes k
  | BTry b' h k =>
      match escapes b' with
      | None => escapes k
      | Some x =>
          match escapes (h x) with
          | None => escapes k
          | Some y => Some y
          end
      end
  end.

(** ** The flame interceptor: [createFlameInterceptor] *)

Module Flame.

(** What a flame node holds: the root marker ["_context"] or the evaluation
    that entered. *)
Inductive FlameValue : Type :=
| RootValue
| EvaluationValue (evaluation : MetaFunction.Evaluation).

(** Flame nodes are mutable and shared: a node sits in the [path] of its
    script and in the [children] of its parent at the same time.  The store
    holds the nodes, a reference is an index, a new node is appended. *)
Record FlameNode : Type := mkFlameNode {
  value : FlameValue;
  children : list nat
}.

Record ScriptTracking : Type := mkScriptTracking {
  root : nat;
  path : list nat
}.

(** [trackingMap] is the object that [createFlameInterceptor] closes over. *)
Record State : Type := mkState {
  nodes : list FlameNode;
  trackingMap : gmap string ScriptTracking
}.

Definition init : State := mkState [] ∅.

Definition alloc (node : FlameNode) : M State nat :=
  fun s => (Normal (length (nodes s)), mkState (nodes s ++ [node]) (trackingMap s)).

(** [trackingMap[key] = tracking], also the effect of mutating the tracking
    object that the map holds under [key]. *)
Definition set_tracking (key : string) (tracking : ScriptTracking)
  : M State unit :=
  modify (fun s => mkState (nodes s) (<[key := tracking]> (trackingMap s))).

Definition add_child (child : nat) (node : FlameNode) : FlameNode :=
  mkFlameNode (value node) (children node ++ [child]).

(** [parent.children.push(child)] *)
Definition push_child (parent child : nat) : M State unit :=
  modify (fun s => mkState (alter (add_child child) parent (nodes s))
                           (trackingMap s)).

(** The interceptor that [createFlameInterceptor(trackingMap)] returns. *)
Definition flameInterceptor (evaluation : MetaFunction.Evaluation)
  : M State unit :=
  let key := prop_key (MetaFunction.ev_scriptId evaluation) in
  do known <- gets (fun s => trackingMap s !! key);
  do tracking <-
    match known with
    | Some tracking => ret tracking
    | None =>
        do r <- alloc (mkFlameNode RootValue []);
        do _ <- set_tracking key (mkScriptTracking r []);
        ret (mkScriptTracking r [])
    end;
  match MetaFunction.ev_phase evaluation with
  | MetaFunction.enter =>
      do node <- alloc (mkFlameNode (EvaluationValue evaluation) []);
      let path' := path tracking ++ [node] in
      do _ <- set_tracking key (mkScriptTracking (root tracking) path');
      if 1 <? length path' then
        match path' !! (length path' - 2) with
        | Some parent => push_child parent node
        | None => throw (TypeError "Cannot read property 'children'")
        end
      else push_child (root tracking) node
  | MetaFunction.exit =>
      set_tracking key
        (mkScriptTracking (root tracking) (removelast (path tracking)))
  end.

(** The interceptor called on a sequence of evaluations, in order. *)
Fixpoint intercept_all (evaluations : list MetaFunction.Evaluation)
  : M State unit :=
  match evaluations with
  | [] => ret tt
  | evaluation :: rest =>
      do _ <- flameInterceptor evaluation;
      intercept_all rest
  end.

Definition key_of (evaluation : MetaFunction.Evaluation) : string :=
  prop_key (MetaFunction.ev_scriptId evaluation).

Definition is_enter (evaluation : MetaFunction.Evaluation) : bool :=
  match MetaFunction.ev_phase evaluation with
  | MetaFunction.enter => true
  | MetaFunction.exit => false
  end.




(** [path] is linked below [parent]: its first node is the last child of
    [parent], and every next node is the last child of the one before. *)
Fixpoint linked (ns : list FlameNode) (parent : nat) (p : list nat) : Prop :=
  match p with
  | [] => True
  | n :: p' =>
      (exists node, ns !! parent = Some node /\ last (children node) = Some n) /\
      linked ns n p'
  end.

(** The nodes a tracking refers to directly. *)
Definition owned (tracking : ScriptTracking) : list nat :=
  root tracking :: path tracking.

(** The shape the interceptor maintains. *)
Record well_formed (s : State) : Prop := mkWellFormed {
  wf_bounded :
    forall key tracking, trackingMap s !! key = Some tracking ->
      Forall (fun i => i < length (nodes s)) (owned tracking);
  wf_distinct :
    forall key tracking, trackingMap s !! key = Some tracking ->
      NoDup (owned tracking);
  wf_apart :
    forall key1 key2 tracking1 tracking2,
      key1 <> key2 ->
      trackingMap s !! key1 = Some tracking1 ->
      trackingMap s !! key2 = Some tracking2 ->
      forall i, i ∈ owned tracking1 -> i ∉ owned tracking2;
  wf_linked :
    forall key tracking, trackingMap s !! key = Some tracking ->
      linked (nodes s) (root tracking) (path tracking)
}.

(** The node store only grows: an existing node keeps its value and its
    children, in order, and may gain children after them. *)
Definition grows (s s' : State) : Prop :=
  forall i node, nodes s !! i = Some node ->
    exists node', nodes s' !! i = Some node' /\
                  value node' = value node /\
                  children node `prefix_of` children node'.

(** The node that receives the next child: the last node of the path, or
    the root when the path is empty. *)
Definition top (tracking : ScriptTracking) : nat :=
  default (root tracking) (last (path tracking)).

(** The state and the tracking after the [if (!tracking)] block. *)
Definition ensure_tracking (key : string) (s : State) : State * ScriptTracking :=
  match trackingMap s !! key with
  | Some tracking => (s, tracking)
  | None =>
      (mkState (nodes s ++ [mkFlameNode RootValue []])
               (<[key := mkScriptTracking (length (nodes s)) []]> (trackingMap s)),
       mkScriptTracking (length (nodes s)) [])
  end.

(** One call of the interceptor, as a function on states. *)
Definition flame_step (evaluation : MetaFunction.Evaluation) (s : State)
  : State :=
  let key := key_of evaluation in
  let '(s1, tracking) := ensure_tracking key s in
  if is_enter evaluation then
    mkState
      (alter (add_child (length (nodes s1))) (top tracking)
         (nodes s1 ++ [mkFlameNode (EvaluationValue evaluation) []]))
      (<[key := mkScriptTracking (root tracking)
                  (path tracking ++ [length (nodes s1)])]> (trackingMap s1))
  else
    mkState (nodes s1)
      (<[key := mkScriptTracking (root tracking) (removelast (path tracking))]>
         (trackingMap s1)).

Fixpoint flame_steps (evaluations : list MetaFunction.Evaluation) (s : State)
  : State :=
  match evaluations with
  | [] => s
  | evaluation :: rest => flame_steps rest (flame_step evaluation s)
  end.

(** Concrete inputs. *)
Definition evaluation_of (script : string) (phase : MetaFunction.Phase)
  : MetaFunction.Evaluation :=
  MetaFunction.mkEvaluation (Some script) (Plain_node "Literal")
    (mkEnv ∅ None) (MetaFunction.PValue VUndefined) phase.

End Flame.

(** * Verification *)

Ltac host_unfold :=
  unfold bind, ret, throw, try_catch, gets, modify, call_opt in *.

(** ** Facts about the meta-function bridge *)

Module MetaFunctionFacts.
Import MetaFunction.

Section Params.
Variable config : option EvaluationConfig.
Variable args : list Value.

Lemma supported_cases (p : Node) :
  supported p = true ->
  (is_Identifier p = true) \/
  (is_Identifier p = false /\ is_RestElement p = true /\
   exists a, argument p = Some a).
Proof.
  unfold supported. destruct (is_Identifier p) eqn:Hi; [by left|].
  simpl. intros [Hr Ha]%andb_prop. right. split; [done|]. split; [done|].
  apply bool_decide_eq_true in Ha. destruct Ha as [a Ha]. by exists a.
Qed.

(** One turn of the loop on a supported parameter. *)
Lemma bindParams_step (p : Node) (ps : list Node) (i : nat)
    (vals : gmap string Value) :
  supported p = true ->
  bindParams config args (p :: ps) i vals =
  bindParams config args ps (if is_Identifier p then S i else i)
    (<[param_key p := param_value args i p]> vals).
Proof.
  intros Hs. destruct (supported_cases p Hs) as [Hi|(Hi & Hr & a & Ha)];
    simpl; unfold param_key, param_value;
    unfold is_Identifier, is_RestElement in *; rewrite Hi.
  - reflexivity.
  - rewrite Hr, Ha. reflexivity.
Qed.

(** Names that no parameter binds keep the value the frame had. *)
Lemma bindParams_frame (k : string) (ps : list Node) :
  forall (i : nat) (vals : gmap string Value) (s : State),
  Forall (fun q => supported q = true) ps ->
  Forall (fun q => param_key q <> k) ps ->
  exists vals', bindParams config args ps i vals s = (Normal vals', s) /\
                vals' !! k = vals !! k.
Proof.
  induction ps as [|q ps IH]; intros i vals s Hsup Hne.
  - exists vals. by split.
  - inversion Hsup as [|? ? Hq Hsup']; subst.
    inversion Hne as [|? ? Hk Hne']; subst.
    rewrite bindParams_step by done.
    destruct (IH (if is_Identifier q then S i else i)
                 (<[param_key q := param_value args i q]> vals) s Hsup' Hne')
      as (vals' & Hrun & Hlook).
    exists vals'. split; [done|].
    rewrite Hlook. by apply lookup_insert_ne.
Qed.

Lemma bindParams_total (ps : list Node) (i : nat) (vals : gmap string Value)
    (s : State) :
  Forall (fun q => supported q = true) ps ->
  exists vals', bindParams config args ps i vals s = (Normal vals', s).
Proof.
  revert i vals. induction ps as [|q ps IH]; intros i vals Hsup.
  - by exists vals.
  - inversion Hsup; subst. rewrite bindParams_step by done. by apply IH.
Qed.

Lemma count_Identifier_cons (q : Node) (ps : list Node) :
  count_Identifier (q :: ps) =
  (if is_Identifier q then 1 else 0) + count_Identifier ps.
Proof.
  unfold count_Identifier. simpl. by destruct (is_Identifier q).
Qed.

Lemma bindParams_binds (p : Node) (ps2 ps1 : list Node) :
  forall (i : nat) (vals : gmap string Value) (s : State),
  Forall (fun q => supported q = true) (ps1 ++ p :: ps2) ->
  Forall (fun q => param_key q <> param_key p) ps2 ->
  exists vals',
    bindParams config args (ps1 ++ p :: ps2) i vals s = (Normal vals', s) /\
    vals' !! param_key p =
      Some (param_value args (i + count_Identifier ps1) p).
Proof.
  induction ps1 as [|q ps1 IH]; intros i vals s Hsup Hne.
  - rewrite app_nil_l in *. inversion Hsup as [|? ? Hp Hsup']; subst.
    rewrite bindParams_step by done.
    destruct (bindParams_frame (param_key p) ps2
                (if is_Identifier p then S i else i)
                (<[param_key p := param_value args i p]> vals) s Hsup' Hne)
      as (vals' & Hrun & Hlook).
    exists vals'. split; [done|].
    rewrite Hlook, lookup_insert_eq.
    unfold count_Identifier. simpl. by rewrite Nat.add_0_r.
  - rewrite <- app_comm_cons in *. inversion Hsup as [|? ? Hq Hsup']; subst.
    rewrite bindParams_step by done.
    destruct (IH (if is_Identifier q then S i else i)
                 (<[param_key q := param_value args i q]> vals) s Hsup' Hne)
      as (vals' & Hrun & Hlook).
    exists vals'. split; [done|].
    rewrite Hlook, count_Identifier_cons.
    destruct (is_Identifier q); do 2 f_equal; lia.
Qed.

End Params.

(** C3 (as amended).  For a list of [Identifier] and [RestElement]
    parameters the loop binds left to right and returns normally: a parameter
    that no later parameter rebinds is bound, in the final frame, to
    [args[i]] when it is an [Identifier] and to [args.slice(i)] when it is a
    [RestElement], where [i] is the number of [Identifier] parameters before
    it; the slice is the empty array when no argument remains.  A
    [RestElement] neither advances [i] nor ends the walk: the parameters
    after it are bound in the same way. *)
Theorem C3_bindParams_binds_each_parameter
    (config : option EvaluationConfig) (args : list Value)
    (ps1 : list Node) (p : Node) (ps2 : list Node)
    (vals : gmap string Value) (s : State) :
  Forall (fun q => supported q = true) (ps1 ++ p :: ps2) ->
  Forall (fun q => param_key q <> param_key p) ps2 ->
  exists vals',
    bindParams config args (ps1 ++ p :: ps2) 0 vals s = (Normal vals', s) /\
    (is_Identifier p = true ->
       vals' !! prop_key (name p) =
         Some (default VUndefined (args !! count_Identifier ps1))) /\
    (is_Identifier p = false ->
       vals' !! param_key p = Some (VArray (drop (count_Identifier ps1) args)) /\
       (length args <= count_Identifier ps1 ->
          vals' !! param_key p = Some (VArray []))).
Proof.
  intros Hsup Hne.
  destruct (bindParams_binds config args p ps2 ps1 0 vals s Hsup Hne)
    as (vals' & Hrun & Hlook).
  exists vals'. split; [done|]. simpl in Hlook.
  split.
  - intros Hi. unfold param_key, param_value in Hlook.
    rewrite Hi in Hlook. exact Hlook.
  - intros Hi. unfold param_value in Hlook. rewrite Hi in Hlook.
    split; [exact Hlook|].
    intros Hlen. rewrite Hlook. by rewrite drop_ge.
Qed.

Lemma C3_bindParams_binds_each_parameter_witness :
  exists vals',
    bindParams None [VNum 1; VNum 2]
      ([Identifier_node "a"; RestElement_node (Identifier_node "r")] ++
       Identifier_node "x" :: []) 0 (initial_values VNull [VNum 1; VNum 2])
      init = (Normal vals', init) /\
    (is_Identifier (Identifier_node "x") = true ->
       vals' !! prop_key (name (Identifier_node "x")) =
         Some (default VUndefined
                 ([VNum 1; VNum 2] !!
                    count_Identifier
                      [Identifier_node "a";
                       RestElement_node (Identifier_node "r")]))) /\
    (is_Identifier (Identifier_node "x") = false ->
       vals' !! param_key (Identifier_node "x") =
         Some (VArray (drop (count_Identifier
                               [Identifier_node "a";
                                RestElement_node (Identifier_node "r")])
                            [VNum 1; VNum 2])) /\
       (length [VNum 1; VNum 2] <=
          count_Identifier [Identifier_node "a";
                            RestElement_node (Identifier_node "r")] ->
          vals' !! param_key (Identifier_node "x") = Some (VArray []))).
Proof.
  apply (C3_bindParams_binds_each_parameter None [VNum 1; VNum 2]
           [Identifier_node "a"; RestElement_node (Identifier_node "r")]
           (Identifier_node "x") []).
  - repeat constructor.
  - constructor.
Defined.

(** C3 (counterexample).  With the parameters [(...r, x)] and the arguments
    [1, 2] the loop goes on after the rest element and binds [x] to
    [args[0]]; a walk that ended at the rest element would leave [x]
    unbound. *)
Lemma C3_rest_element_does_not_end_the_walk :
  exists vals,
    bindParams None [VNum 1; VNum 2] rest_first 0 ∅ init = (Normal vals, init) /\
    vals !! "r" = Some (VArray [VNum 1; VNum 2]) /\
    vals !! "x" = Some (VNum 1) /\
    bindParams_spec [VNum 1; VNum 2] rest_first 0 ∅ !! "x" = None.
Proof.
  eexists. split; [reflexivity|]. repeat split; vm_compute; reflexivity.
Qed.

(** *** Unsupported parameters *)

Lemma first_unsupported (ps : list Node) :
  Forall (fun q => is_RestElement q = true -> is_Some (argument q)) ps ->
  Exists (fun q => unsupported q = true) ps ->
  exists ps1 p ps2,
    ps = ps1 ++ p :: ps2 /\
    Forall (fun q => supported q = true) ps1 /\
    unsupported p = true.
Proof.
  induction ps as [|q ps IH]; intros Hwf Hex.
  - inversion Hex.
  - inversion Hwf as [|? ? Hq Hwf']; subst.
    destruct (unsupported q) eqn:Hu.
    + exists [], q, ps. by repeat split.
    + assert (Hs : supported q = true).
      { unfold unsupported, supported in *.
        destruct (is_Identifier q); [done|].
        destruct (is_RestElement q); [|done]. simpl.
        apply bool_decide_eq_true. by apply Hq. }
      inversion Hex as [? ? Hq'|? ? Hex']; subst; [congruence|].
      destruct (IH Hwf' Hex') as (ps1 & p & ps2 & -> & Hsup & Hp).
      exists (q :: ps1), p, ps2. repeat split; [|done]. by constructor.
Qed.

Lemma set_trace_id (s : State) : set_trace (trace s ++ []) s = s.
Proof. destruct s. unfold set_trace. simpl. by rewrite app_nil_r. Qed.

Lemma notify_onError_observed (sh : ConfigShape) (x : Value) (s : State) :
  notify_onError (config_of sh) x s =
  (Normal tt, set_trace (trace s ++ onError_events sh x) s).
Proof.
  destruct sh as [|[] sid]; simpl; host_unfold; unfold emit; host_unfold;
    try reflexivity; by rewrite set_trace_id.
Qed.

Lemma bindParams_unsupported (sh : ConfigShape) (args : list Value)
    (p : Node) (ps2 ps1 : list Node) :
  forall (i : nat) (vals : gmap string Value) (s : State),
  Forall (fun q => supported q = true) ps1 ->
  unsupported p = true ->
  let x := NotImplementedException
             ("Not supported type (" +:+ type p +:+ ") of function param.")
             (Some p) in
  bindParams (config_of sh) args (ps1 ++ p :: ps2) i vals s =
  (Thrown x, set_trace (trace s ++ onError_events sh x) s).
Proof.
  induction ps1 as [|q ps1 IH]; intros i vals s Hsup Hp x.
  - rewrite app_nil_l. simpl.
    unfold unsupported, is_Identifier, is_RestElement in Hp.
    apply andb_prop in Hp as [Hi Hr].
    apply negb_true_iff in Hi, Hr. rewrite Hi, Hr.
    unfold bind at 1. fold x. rewrite notify_onError_observed. reflexivity.
  - rewrite <- app_comm_cons. inversion Hsup; subst.
    rewrite bindParams_step by done. by apply IH.
Qed.

(** C4.  When the parameter list holds a parameter whose type is neither
    [Identifier] nor [RestElement] (rest elements carrying their argument),
    the invocation builds a [NotImplementedException] for the first such
    parameter, hands it to [config.onError] when that is configured, and then
    to [cerr]; nothing else happens: no interceptor event, and the body is
    not evaluated, whatever the dispatcher would do with it. *)
Theorem C4_unsupported_parameter_is_reported
    (evaluate : option Node -> Environment -> option EvaluationConfig -> Body)
    (sh : ConfigShape) (e : Node) (closure : Environment)
    (thisObject : Value) (args : list Value) (s : State) :
  Forall (fun q => is_RestElement q = true -> is_Some (argument q)) (params e) ->
  Exists (fun q => unsupported q = true) (params e) ->
  exists p,
    p ∈ params e /\ unsupported p = true /\
    let x := NotImplementedException
               ("Not supported type (" +:+ type p +:+ ") of function param.")
               (Some p) in
    evaluateMetaFunction evaluate (mkMetaesFunction e closure (config_of sh))
      observed_c observed_cerr thisObject args s =
    (Normal tt, set_trace (trace s ++ onError_events sh x ++ [EvCerr x]) s).
Proof.
  intros Hwf Hex.
  destruct (first_unsupported (params e) Hwf Hex)
    as (ps1 & p & ps2 & Hps & Hsup & Hp).
  exists p. split; [rewrite Hps; set_solver|]. split; [done|].
  intros x. unfold evaluateMetaFunction, try_catch, bind at 1.
  rewrite Hps.
  rewrite (bindParams_unsupported sh args p ps2 ps1 0 _ s Hsup Hp).
  fold x. unfold observed_cerr, emit, modify, set_trace. simpl.
  by rewrite app_assoc.
Qed.

Lemma C4_unsupported_parameter_is_reported_witness :
  exists p,
    p ∈ params (sample_fn [Identifier_node "a"; Plain_node "ObjectPattern"]) /\
    unsupported p = true /\
    let x := NotImplementedException
               ("Not supported type (" +:+ type p +:+ ") of function param.")
               (Some p) in
    evaluateMetaFunction (fun _ _ _ => BSuccess (VNum 1) BReturn)
      (mkMetaesFunction
         (sample_fn [Identifier_node "a"; Plain_node "ObjectPattern"])
         (mkEnv ∅ None) (config_of (Observed true (Some "0"))))
      observed_c observed_cerr VNull [VNum 1] init =
    (Normal tt,
     set_trace (trace init ++ onError_events (Observed true (Some "0")) x ++
                [EvCerr x]) init).
Proof.
  apply (C4_unsupported_parameter_is_reported
           (fun _ _ _ => BSuccess (VNum 1) BReturn) (Observed true (Some "0"))
           (sample_fn [Identifier_node "a"; Plain_node "ObjectPattern"])
           (mkEnv ∅ None) VNull [VNum 1] init).
  - repeat constructor; intros H; vm_compute in H; discriminate.
  - apply Exists_cons_tl. apply Exists_cons_hd. reflexivity.
Defined.

(** *** The exit guard *)

Lemma exits_app (t1 t2 : list Event) : exits (t1 ++ t2) = exits t1 + exits t2.
Proof. unfold exits. by rewrite List.filter_app, length_app. Qed.

Lemma budget_le_1 (s : State) : budget s <= 1.
Proof. unfold budget. destruct (_calledAfterInterceptor s); lia. Qed.

Lemma advances_refl (s : State) : advances s s.
Proof. exists []. rewrite app_nil_r. split; [done|]. simpl. lia. Qed.

Lemma advances_trans (s1 s2 s3 : State) :
  advances s1 s2 -> advances s2 s3 -> advances s1 s3.
Proof.
  intros (evs1 & Ht1 & Hb1) (evs2 & Ht2 & Hb2).
  exists (evs1 ++ evs2). split.
  - by rewrite Ht2, Ht1, app_assoc.
  - rewrite exits_app. lia.
Qed.

Section Steady.
Context {A B : Type}.

Lemma steady_ret (a : A) : steady (ret a).
Proof. intros s. apply advances_refl. Qed.

Lemma steady_throw (x : Value) : steady (@throw State A x).
Proof. intros s. apply advances_refl. Qed.

Lemma steady_gets (f : State -> A) : steady (gets f).
Proof. intros s. apply advances_refl. Qed.

Lemma steady_bind (m : M State A) (k : A -> M State B) :
  steady m -> (forall a, steady (k a)) -> steady (bind m k).
Proof.
  intros Hm Hk s. unfold bind. specialize (Hm s).
  destruct (m s) as [[a|x] s1]; simpl in *; [|done].
  eapply advances_trans; [exact Hm|]. apply Hk.
Qed.

Lemma steady_try_catch (m : M State A) (h : Value -> M State A) :
  steady m -> (forall x, steady (h x)) -> steady (try_catch m h).
Proof.
  intros Hm Hh s. unfold try_catch. specialize (Hm s).
  destruct (m s) as [[a|x] s1]; simpl in *; [done|].
  eapply advances_trans; [exact Hm|]. apply Hh.
Qed.
End Steady.

Lemma steady_get_prop (x : Value) (k : string) : steady (get_prop x k).
Proof. intros s. destruct x; simpl; apply advances_refl. Qed.

Lemma steady_set_prop (x : Value) (k : string) (v : Value) :
  steady (set_prop x k v).
Proof. intros s. destruct x; simpl; apply advances_refl. Qed.

Lemma steady_emit (ev : Event) : is_exit ev = false -> steady (emit ev).
Proof.
  intros Hev s. exists [ev]. split; [done|].
  unfold exits. simpl. rewrite Hev. simpl. unfold budget. simpl. lia.
Qed.

Lemma steady_interceptorAfter (sh : ConfigShape) (e : Node) (v : Value)
    (env : Environment) :
  steady (_interceptorAfter (config_of sh) e v env).
Proof.
  intros s. unfold _interceptorAfter, bind, gets.
  destruct (_calledAfterInterceptor s) eqn:Hc.
  - apply advances_refl.
  - destruct sh as [|b sid]; simpl.
    + exists []. rewrite app_nil_r. split; [done|].
      unfold budget. simpl. rewrite Hc. simpl. lia.
    + eexists [_]. split; [reflexivity|].
      unfold budget. simpl. rewrite Hc. simpl. lia.
Qed.

Lemma steady_body_c (sh : ConfigShape) (e : Node) (env : Environment)
    (v : Value) :
  steady (body_c (config_of sh) e env observed_c v).
Proof.
  unfold body_c. apply steady_bind.
  - by apply steady_emit.
  - intros _. apply steady_interceptorAfter.
Qed.

Lemma steady_body_cerr (sh : ConfigShape) (e : Node) (env : Environment)
    (p : Value) :
  steady (body_cerr (config_of sh) e env observed_c observed_cerr p).
Proof.
  unfold body_cerr. apply steady_bind; [apply steady_get_prop|].
  intros ty. destruct (strict_eq_str ty "ReturnStatement").
  - apply steady_bind; [apply steady_get_prop|]. intros v.
    apply steady_bind; [by apply steady_emit|]. intros _.
    apply steady_bind; [apply steady_get_prop|]. intros v'.
    apply steady_interceptorAfter.
  - apply steady_bind; [apply steady_set_prop|]. intros located.
    apply steady_bind; [by apply steady_emit|]. intros _.
    apply steady_bind; [apply steady_get_prop|]. intros v.
    apply steady_throw.
Qed.

(** Whatever the evaluator of the body does with its two continuations, the
    guard is respected. *)
Lemma steady_run (sh : ConfigShape) (e : Node) (env : Environment) (b : Body) :
  steady (run b (body_c (config_of sh) e env observed_c)
                (body_cerr (config_of sh) e env observed_c observed_cerr)).
Proof.
  induction b as [|x|v k IHk|p k IHk|b IHb h IHh k IHk]; simpl.
  - apply steady_ret.
  - apply steady_throw.
  - apply steady_bind; [apply steady_body_c|]. intros _. exact IHk.
  - apply steady_bind; [apply steady_body_cerr|]. intros _. exact IHk.
  - apply steady_bind; [|intros _; exact IHk].
    apply steady_try_catch; [exact IHb|]. intros x. apply IHh.
Qed.

Section Emits.
Context {A B : Type}.

Lemma emits_steady (m : M State A) : steady m -> emits_at_most 1 m.
Proof.
  intros Hm s. destruct (Hm s) as (evs & Ht & Hb).
  exists evs. split; [done|]. pose proof (budget_le_1 s). lia.
Qed.


Lemma emits_try_catch (n1 n2 : nat) (m : M State A) (h : Value -> M State A) :
  emits_at_most n1 m -> (forall x, emits_at_most n2 (h x)) ->
  emits_at_most (n1 + n2) (try_catch m h).
Proof.
  intros Hm Hh s. unfold try_catch. destruct (Hm s) as (evs1 & Ht1 & He1).
  destruct (m s) as [[a|x] s1]; simpl in *.
  - exists evs1. split; [done|lia].
  - destruct (Hh x s1) as (evs2 & Ht2 & He2).
    exists (evs1 ++ evs2). rewrite Ht2, Ht1, app_assoc, exits_app.
    split; [done|lia].
Qed.
End Emits.

Lemma emits_emit (ev : Event) : is_exit ev = false -> emits_at_most 0 (emit ev).
Proof.
  intros Hev s. exists [ev]. split; [done|].
  unfold exits. simpl. by rewrite Hev.
Qed.





Example exit_once_when_both_continuations_run :
  exits (trace (snd (evaluateMetaFunction
    (fun _ _ _ =>
       BSuccess (VNum 1)
         (BSuccess (VNum 2)
            (BFailure (packet "ReturnStatement" (VNum 3)) BReturn)))
    (sample_metaFunction [] (Observed false (Some "0")))
    observed_c observed_cerr VNull [] init))) = 1.
Proof. vm_compute. reflexivity. Qed.

(** *** Order of the success continuation and the "exit" event *)

Lemma body_c_first (sh : ConfigShape) (e : Node) (env : Environment)
    (v : Value) (s : State) :
  _calledAfterInterceptor s = false ->
  exists s1,
    body_c (config_of sh) e env observed_c v s = (Normal tt, s1) /\
    trace s1 = trace s ++ [EvC v] ++ interceptor_events sh e env (PValue v) exit /\
    _calledAfterInterceptor s1 = true.
Proof.
  intros Hc. unfold body_c, _interceptorAfter, observed_c, emit.
  host_unfold. simpl. rewrite Hc.
  destruct sh as [|b sid]; simpl; eexists; split; try reflexivity; simpl.
  - split; [|done]. done.
  - split; [|done]. by rewrite <- app_assoc.
Qed.

Lemma run_after_exit (sh : ConfigShape) (e : Node) (env : Environment)
    (k : Body) (s1 : State) :
  _calledAfterInterceptor s1 = true ->
  exists rest,
    trace (snd (run k (body_c (config_of sh) e env observed_c)
                      (body_cerr (config_of sh) e env observed_c observed_cerr)
                      s1)) = trace s1 ++ rest /\
    exits rest = 0.
Proof.
  intros Hc. destruct (steady_run sh e env k s1) as (rest & Ht & Hb).
  exists rest. split; [done|]. unfold budget in Hb at 2. rewrite Hc in Hb. lia.
Qed.

(** With supported parameters the invocation binds them, emits "enter",
    clears the guard and runs the body between [try] and [catch]. *)
Lemma evaluateMetaFunction_prologue
    (evaluate : option Node -> Environment -> option EvaluationConfig -> Body)
    (sh : ConfigShape) (e : Node) (closure : Environment)
    (c cerr : Value -> M State unit)
    (thisObject : Value) (args : list Value) (s : State) :
  Forall (fun q => supported q = true) (params e) ->
  exists vals,
    bindParams (config_of sh) args (params e) 0
      (initial_values thisObject args) s = (Normal vals, s) /\
    evaluateMetaFunction evaluate (mkMetaesFunction e closure (config_of sh))
      c cerr thisObject args s =
    try_catch
      (run (evaluate (body e) (mkEnv vals (Some closure)) (config_of sh))
           (body_c (config_of sh) e (mkEnv vals (Some closure)) c)
           (body_cerr (config_of sh) e (mkEnv vals (Some closure)) c cerr))
      (fun x => cerr x)
      (set_calledAfterInterceptor false
         (set_trace
            (trace s ++
             interceptor_events sh e (mkEnv vals (Some closure))
               (PMetaFunction e closure) enter) s)).
Proof.
  intros Hsup.
  destruct (bindParams_total (config_of sh) args (params e) 0
              (initial_values thisObject args) s Hsup) as [vals Hvals].
  exists vals. split; [done|].
  unfold evaluateMetaFunction, try_catch. unfold bind at 1.
  unfold initial_values in Hvals. rewrite Hvals.
  unfold bind at 1.
  assert (Hint :
    match config_of sh with
    | Some cfg =>
        callInterceptor e cfg (PMetaFunction e closure)
          (mkEnv vals (Some closure)) enter
    | None => ret tt
    end s =
    (Normal tt, set_trace (trace s ++
       interceptor_events sh e (mkEnv vals (Some closure))
         (PMetaFunction e closure) enter) s)).
  { destruct sh as [|b sid]; simpl.
    - unfold ret. by rewrite set_trace_id.
    - reflexivity. }
  rewrite Hint. unfold bind at 1. unfold modify at 1. reflexivity.
Qed.

(** C6.  When the parameters are bound and the body completes successfully
    with [v] (whatever its evaluator does afterwards), the trace of the
    invocation is: the "enter" event, then the call [c(v)], then the "exit"
    event carrying [v], and no "exit" event after that.  The success
    continuation is thus called strictly before "exit" is emitted. *)
Theorem C6_success_continuation_precedes_exit
    (evaluate : option Node -> Environment -> option EvaluationConfig -> Body)
    (sh : ConfigShape) (e : Node) (closure : Environment)
    (thisObject : Value) (args : list Value) (s : State)
    (v : Value) (k : Body) :
  Forall (fun q => supported q = true) (params e) ->
  (forall env, evaluate (body e) env (config_of sh) = BSuccess v k) ->
  exists vals rest,
    bindParams (config_of sh) args (params e) 0
      (initial_values thisObject args) s = (Normal vals, s) /\
    trace (snd (evaluateMetaFunction evaluate
                  (mkMetaesFunction e closure (config_of sh))
                  observed_c observed_cerr thisObject args s)) =
      trace s ++
      interceptor_events sh e (mkEnv vals (Some closure))
        (PMetaFunction e closure) enter ++
      [EvC v] ++
      interceptor_events sh e (mkEnv vals (Some closure)) (PValue v) exit ++
      rest /\
    exits rest = 0.
Proof.
  intros Hsup Hbody.
  destruct (evaluateMetaFunction_prologue evaluate sh e closure
              observed_c observed_cerr thisObject args s Hsup)
    as (vals & Hvals & Hrun).
  exists vals. rewrite Hrun, Hbody. clear Hrun.
  set (env := mkEnv vals (Some closure)).
  set (s0 := set_calledAfterInterceptor false _).
  destruct (body_c_first sh e env v s0 eq_refl) as (s1 & Hs1 & Ht1 & Hc1).
  destruct (run_after_exit sh e env k s1 Hc1) as (rest & Hrest & Hex).
  unfold try_catch. simpl run. unfold bind at 1. rewrite Hs1.
  destruct (run k _ _ s1) as [[[]|x] s2] eqn:Hk; simpl in *.
  - exists rest. split; [done|]. split; [|done].
    rewrite Hrest, Ht1. unfold s0. simpl. by rewrite <- !app_assoc.
  - exists (rest ++ [EvCerr x]). split; [done|]. split.
    + rewrite Hrest, Ht1. unfold s0. simpl. by rewrite <- !app_assoc.
    + rewrite exits_app, Hex. reflexivity.
Qed.

Lemma C6_success_continuation_precedes_exit_witness :
  exists vals rest,
    bindParams (config_of (Observed false (Some "0"))) [VNum 21]
      (params (sample_fn [Identifier_node "x"])) 0
      (initial_values VNull [VNum 21]) init = (Normal vals, init) /\
    trace (snd (evaluateMetaFunction
                  (fun _ _ _ => BSuccess (VNum 42) BReturn)
                  (mkMetaesFunction (sample_fn [Identifier_node "x"])
                     (mkEnv ∅ None) (config_of (Observed false (Some "0"))))
                  observed_c observed_cerr VNull [VNum 21] init)) =
      trace init ++
      interceptor_events (Observed false (Some "0"))
        (sample_fn [Identifier_node "x"]) (mkEnv vals (Some (mkEnv ∅ None)))
        (PMetaFunction (sample_fn [Identifier_node "x"]) (mkEnv ∅ None)) enter ++
      [EvC (VNum 42)] ++
      interceptor_events (Observed false (Some "0"))
        (sample_fn [Identifier_node "x"]) (mkEnv vals (Some (mkEnv ∅ None)))
        (PValue (VNum 42)) exit ++
      rest /\
    exits rest = 0.
Proof.
  apply (C6_success_continuation_precedes_exit
           (fun _ _ _ => BSuccess (VNum 42) BReturn)
           (Observed false (Some "0")) (sample_fn [Identifier_node "x"])
           (mkEnv ∅ None) VNull [VNum 21] init (VNum 42) BReturn).
  - repeat constructor.
  - intros env. reflexivity.
Defined.

(** *** Error packets *)

(** X1.  A [ReturnStatement] packet is a result: when the parameters are
    bound and the body reports such a packet through its error continuation,
    [c] receives the packet's value, [cerr] is not called, and the "exit"
    event carrying that value follows. *)
Lemma return_packet_is_a_result
    (evaluate : option Node -> Environment -> option EvaluationConfig -> Body)
    (sh : ConfigShape) (e : Node) (closure : Environment)
    (thisObject : Value) (args : list Value) (s : State) (v : Value) :
  Forall (fun q => supported q = true) (params e) ->
  (forall env, evaluate (body e) env (config_of sh) =
               BFailure (packet "ReturnStatement" v) BReturn) ->
  exists vals,
    trace (snd (evaluateMetaFunction evaluate
                  (mkMetaesFunction e closure (config_of sh))
                  observed_c observed_cerr thisObject args s)) =
      trace s ++
      interceptor_events sh e (mkEnv vals (Some closure))
        (PMetaFunction e closure) enter ++
      [EvC v] ++
      interceptor_events sh e (mkEnv vals (Some closure)) (PValue v) exit.
Proof.
  intros Hsup Hbody.
  destruct (evaluateMetaFunction_prologue evaluate sh e closure
              observed_c observed_cerr thisObject args s Hsup)
    as (vals & Hvals & Hrun).
  exists vals. rewrite Hrun, Hbody. clear Hrun.
  destruct sh as [|b sid]; simpl; by rewrite <- ?app_assoc, ?app_nil_r.
Qed.

(** On a packet of any other type the error continuation sets [location],
    calls [cerr] and throws the packet's value: it never returns, so the
    "exit" emission that follows the [switch] is not reached and the guard
    stays as it was. *)
Lemma body_cerr_throws_on_error_packet (sh : ConfigShape) (e : Node)
    (env : Environment) (ty : string) (v : Value) (s : State) :
  String.eqb ty "ReturnStatement" = false ->
  body_cerr (config_of sh) e env observed_c observed_cerr (packet ty v) s =
  (Thrown v,
   set_trace
     (trace s ++
      [EvCerr (VObject [("type", VStr ty); ("value", v); ("location", VNode e)])])
     s).
Proof.
  intros Hty. unfold body_cerr, packet. simpl. unfold bind at 1. simpl.
  rewrite Hty. reflexivity.
Qed.

(** X2.  For a packet of any type other than [ReturnStatement], when the
    evaluator of the body lets the continuation's throw through: [cerr]
    receives the packet with [location] set to the function node, the rest
    of the body's behaviour is skipped, the [catch] of [evaluateMetaFunction]
    calls [cerr] again with the packet's bare value, and no "exit" event is
    emitted. *)
Lemma error_packet_is_rethrown
    (evaluate : option Node -> Environment -> option EvaluationConfig -> Body)
    (sh : ConfigShape) (e : Node) (closure : Environment)
    (thisObject : Value) (args : list Value) (s : State)
    (ty : string) (v : Value) (k : Body) :
  Forall (fun q => supported q = true) (params e) ->
  String.eqb ty "ReturnStatement" = false ->
  (forall env, evaluate (body e) env (config_of sh) =
               BFailure (packet ty v) k) ->
  exists vals,
    trace (snd (evaluateMetaFunction evaluate
                  (mkMetaesFunction e closure (config_of sh))
                  observed_c observed_cerr thisObject args s)) =
      trace s ++
      interceptor_events sh e (mkEnv vals (Some closure))
        (PMetaFunction e closure) enter ++
      [EvCerr (VObject [("type", VStr ty); ("value", v); ("location", VNode e)]);
       EvCerr v].
Proof.
  intros Hsup Hty Hbody.
  destruct (evaluateMetaFunction_prologue evaluate sh e closure
              observed_c observed_cerr thisObject args s Hsup)
    as (vals & Hvals & Hrun).
  exists vals. rewrite Hrun, Hbody. clear Hrun.
  unfold try_catch. simpl run. unfold bind at 1.
  unfold body_cerr, packet. simpl. unfold bind at 1. simpl.
  rewrite Hty. simpl. by rewrite <- !app_assoc.
Qed.

(** C2 (what the code does).  A body that reports the packet
    [{ type: "ThrowStatement", value: 1 }] through its error continuation:
    the trace is the "enter" event, [cerr] with the located packet, and
    [cerr] once more with the bare value [1] from the [catch] block.  No
    "exit" event is emitted. *)
Theorem C2_error_packet_skips_exit_and_reaches_cerr_twice :
  evaluateMetaFunction
    (fun _ _ _ => BFailure (packet "ThrowStatement" (VNum 1)) BReturn)
    (sample_metaFunction [] (Observed false (Some "0")))
    observed_c observed_cerr VUndefined [] init =
  (Normal tt,
   mkState
     [EvInterceptor
        (mkEvaluation (Some "0") (sample_fn [])
           (mkEnv (initial_values VUndefined []) (Some (mkEnv ∅ None)))
           (PMetaFunction (sample_fn []) (mkEnv ∅ None)) enter);
      EvCerr (VObject [("type", VStr "ThrowStatement"); ("value", VNum 1);
                       ("location", VNode (sample_fn []))]);
      EvCerr (VNum 1)]
     false VUndefined VUndefined).
Proof. vm_compute. reflexivity. Qed.

(** *** The wrapper *)

(** C1 (what the code does).  A body that reports the packet
    [{ type: "ThrowStatement", value: 0 }]: the host callable returns
    [undefined] and throws nothing. *)
Theorem C1_wrapper_returns_undefined_for_falsy_error :
  fst (createMetaFunctionWrapper
         (fun _ _ _ => BFailure (packet "ThrowStatement" (VNum 0)) BReturn)
         (sample_metaFunction [] (Observed false (Some "0")))
         VUndefined [] init) = Normal VUndefined.
Proof. vm_compute. reflexivity. Qed.

(** The same happens for a truthy primitive: the [catch] block hands the
    bare value to the wrapper's error callback, which then records
    [value.value], that is [undefined]. *)
Example wrapper_returns_undefined_for_string_error :
  fst (createMetaFunctionWrapper
         (fun _ _ _ => BFailure (packet "ThrowStatement" (VStr "boom")) BReturn)
         (sample_metaFunction [] (Observed false (Some "0")))
         VUndefined [] init) = Normal VUndefined.
Proof. vm_compute. reflexivity. Qed.

Example wrapper_throws_TypeError_for_undefined_error :
  fst (createMetaFunctionWrapper
         (fun _ _ _ => BFailure (packet "ThrowStatement" VUndefined) BReturn)
         (sample_metaFunction [] (Observed false (Some "0")))
         VUndefined [] init) =
  Thrown (TypeError "Cannot read property 'value'").
Proof. vm_compute. reflexivity. Qed.




(** X4.  When the parameters are bound and the body completes, normally
    or through a [ReturnStatement] packet, the host callable returns the
    result and throws nothing. *)
Lemma wrapper_returns_the_result
    (evaluate : option Node -> Environment -> option EvaluationConfig -> Body)
    (sh : ConfigShape) (e : Node) (closure : Environment)
    (this : Value) (args : list Value) (s : State) (v : Value) :
  Forall (fun q => supported q = true) (params e) ->
  (forall env, evaluate (body e) env (config_of sh) = BSuccess v BReturn) \/
  (forall env, evaluate (body e) env (config_of sh) =
               BFailure (packet "ReturnStatement" v) BReturn) ->
  fst (createMetaFunctionWrapper evaluate
         (mkMetaesFunction e closure (config_of sh)) this args s) = Normal v.
Proof.
  intros Hsup Hbody.
  unfold createMetaFunctionWrapper. simpl config.
  unfold bind at 1. unfold modify at 1. unfold bind at 1. unfold modify at 1.
  unfold bind at 1.
  set (s0 := set_error VUndefined (set_result VUndefined s)).
  destruct (evaluateMetaFunction_prologue evaluate sh e closure
              (fun r => modify (set_result r))
              (fun exception =>
                 do v <- get_prop exception "value";
                 do _ <- modify (set_error v);
                 notify_onError (config_of sh) exception)
              this args s0 Hsup)
    as (vals & Hvals & Hrun).
  rewrite Hrun. clear Hrun.
  destruct Hbody as [Hbody|Hbody]; rewrite Hbody;
    destruct sh as [|b sid]; reflexivity.
Qed.

(** *** Witnesses and further facts about the bridge *)

Lemma return_packet_is_a_result_witness :
  exists vals,
    trace (snd (evaluateMetaFunction
                  (fun _ _ _ => BFailure (packet "ReturnStatement" (VNum 7)) BReturn)
                  (mkMetaesFunction (sample_fn [Identifier_node "x"])
                     (mkEnv ∅ None) (config_of (Observed false (Some "0"))))
                  observed_c observed_cerr VNull [VNum 1] init)) =
      trace init ++
      interceptor_events (Observed false (Some "0"))
        (sample_fn [Identifier_node "x"]) (mkEnv vals (Some (mkEnv ∅ None)))
        (PMetaFunction (sample_fn [Identifier_node "x"]) (mkEnv ∅ None)) enter ++
      [EvC (VNum 7)] ++
      interceptor_events (Observed false (Some "0"))
        (sample_fn [Identifier_node "x"]) (mkEnv vals (Some (mkEnv ∅ None)))
        (PValue (VNum 7)) exit.
Proof.
  apply (return_packet_is_a_result
           (fun _ _ _ => BFailure (packet "ReturnStatement" (VNum 7)) BReturn)
           (Observed false (Some "0")) (sample_fn [Identifier_node "x"])
           (mkEnv ∅ None) VNull [VNum 1] init (VNum 7)).
  - repeat constructor.
  - intros env. reflexivity.
Defined.

Lemma error_packet_is_rethrown_witness :
  exists vals,
    trace (snd (evaluateMetaFunction
                  (fun _ _ _ =>
                     BFailure (packet "BreakStatement" VUndefined)
                       (BSuccess (VNum 1) BReturn))
                  (mkMetaesFunction (sample_fn [Identifier_node "x"])
                     (mkEnv ∅ None) (config_of (Observed false (Some "0"))))
                  observed_c observed_cerr VNull [VNum 1] init)) =
      trace init ++
      interceptor_events (Observed false (Some "0"))
        (sample_fn [Identifier_node "x"]) (mkEnv vals (Some (mkEnv ∅ None)))
        (PMetaFunction (sample_fn [Identifier_node "x"]) (mkEnv ∅ None)) enter ++
      [EvCerr (VObject [("type", VStr "BreakStatement"); ("value", VUndefined);
                        ("location", VNode (sample_fn [Identifier_node "x"]))]);
       EvCerr VUndefined].
Proof.
  apply (error_packet_is_rethrown
           (fun _ _ _ =>
              BFailure (packet "BreakStatement" VUndefined)
                (BSuccess (VNum 1) BReturn))
           (Observed false (Some "0")) (sample_fn [Identifier_node "x"])
           (mkEnv ∅ None) VNull [VNum 1] init "BreakStatement" VUndefined
           (BSuccess (VNum 1) BReturn)).
  - repeat constructor.
  - reflexivity.
  - intros env. reflexivity.
Defined.


Lemma wrapper_returns_the_result_witness :
  fst (createMetaFunctionWrapper
         (fun _ _ _ => BFailure (packet "ReturnStatement" (VNum 42)) BReturn)
         (mkMetaesFunction (sample_fn [Identifier_node "x"]) (mkEnv ∅ None)
            (config_of (Observed true (Some "0"))))
         VNull [VNum 21] init) = Normal (VNum 42).
Proof.
  apply (wrapper_returns_the_result
           (fun _ _ _ => BFailure (packet "ReturnStatement" (VNum 42)) BReturn)
           (Observed true (Some "0")) (sample_fn [Identifier_node "x"])
           (mkEnv ∅ None) VNull [VNum 21] init (VNum 42)).
  - repeat constructor.
  - right. intros env. reflexivity.
Defined.

(** X5.  When no parameter is named [this] or [arguments], the frame in
    which the body is evaluated, the one the "enter" event announces, binds
    [this] to the receiver and [arguments] to the array of all arguments,
    and its [prev] is the closure of the meta-function. *)
Theorem frame_binds_this_and_arguments
    (evaluate : option Node -> Environment -> option EvaluationConfig -> Body)
    (with_onError : bool) (sid : option string) (e : Node)
    (closure : Environment) (thisObject : Value) (args : list Value)
    (s : State) :
  Forall (fun q => supported q = true) (params e) ->
  Forall (fun q => param_key q <> "this") (params e) ->
  Forall (fun q => param_key q <> "arguments") (params e) ->
  exists vals rest,
    vals !! "this" = Some thisObject /\
    vals !! "arguments" = Some (VArray args) /\
    evaluateMetaFunction evaluate
      (mkMetaesFunction e closure (config_of (Observed with_onError sid)))
      observed_c observed_cerr thisObject args s =
    try_catch
      (run (evaluate (body e) (mkEnv vals (Some closure))
              (config_of (Observed with_onError sid)))
           (body_c (config_of (Observed with_onError sid)) e
              (mkEnv vals (Some closure)) observed_c)
           (body_cerr (config_of (Observed with_onError sid)) e
              (mkEnv vals (Some closure)) observed_c observed_cerr))
      (fun x => observed_cerr x)
      (set_calledAfterInterceptor false
         (set_trace
            (trace s ++
             [EvInterceptor
                (mkEvaluation sid e (mkEnv vals (Some closure))
                   (PMetaFunction e closure) enter)]) s)) /\
    trace (snd (evaluateMetaFunction evaluate
                  (mkMetaesFunction e closure
                     (config_of (Observed with_onError sid)))
                  observed_c observed_cerr thisObject args s)) =
      trace s ++
      EvInterceptor
        (mkEvaluation sid e (mkEnv vals (Some closure))
           (PMetaFunction e closure) enter) :: rest.
Proof.
  intros Hsup Hthis Hargs.
  destruct (evaluateMetaFunction_prologue evaluate (Observed with_onError sid)
              e closure observed_c observed_cerr thisObject args s Hsup)
    as (vals & Hvals & Hrun).
  destruct (bindParams_frame (config_of (Observed with_onError sid)) args "this"
              (params e) 0 (initial_values thisObject args) s Hsup Hthis)
    as (vals1 & Hvals1 & Hl1).
  destruct (bindParams_frame (config_of (Observed with_onError sid)) args
              "arguments" (params e) 0 (initial_values thisObject args) s
              Hsup Hargs)
    as (vals2 & Hvals2 & Hl2).
  rewrite Hvals in Hvals1, Hvals2.
  injection Hvals1 as <-. injection Hvals2 as <-.
  unfold initial_values in Hl1, Hl2.
  rewrite lookup_insert_ne, lookup_insert_eq in Hl1 by done.
  rewrite lookup_insert_eq in Hl2.
  destruct (emits_try_catch 1 0 _ (fun x => observed_cerr x)
              (emits_steady _
                 (steady_run (Observed with_onError sid) e
                    (mkEnv vals (Some closure))
                    (evaluate (body e) (mkEnv vals (Some closure))
                       (config_of (Observed with_onError sid)))))
              (fun x => emits_emit (EvCerr x) eq_refl)
              (set_calledAfterInterceptor false
                 (set_trace
                    (trace s ++
                     interceptor_events (Observed with_onError sid) e
                       (mkEnv vals (Some closure)) (PMetaFunction e closure)
                       enter) s)))
    as (rest & Hrest & _).
  exists vals, rest. split; [done|]. split; [done|]. split; [exact Hrun|].
  rewrite Hrun. simpl in Hrest. simpl. rewrite Hrest.
  by rewrite <- app_assoc.
Qed.

Lemma frame_binds_this_and_arguments_witness :
  exists vals rest,
    vals !! "this" = Some (VStr "receiver") /\
    vals !! "arguments" = Some (VArray [VNum 1; VNum 2]) /\
    evaluateMetaFunction (fun _ _ _ => BSuccess (VNum 3) BReturn)
      (mkMetaesFunction (sample_fn [Identifier_node "x"]) (mkEnv ∅ None)
         (config_of (Observed false (Some "0"))))
      observed_c observed_cerr (VStr "receiver") [VNum 1; VNum 2] init =
    try_catch
      (run (BSuccess (VNum 3) BReturn)
           (body_c (config_of (Observed false (Some "0")))
              (sample_fn [Identifier_node "x"])
              (mkEnv vals (Some (mkEnv ∅ None))) observed_c)
           (body_cerr (config_of (Observed false (Some "0")))
              (sample_fn [Identifier_node "x"])
              (mkEnv vals (Some (mkEnv ∅ None))) observed_c observed_cerr))
      (fun x => observed_cerr x)
      (set_calledAfterInterceptor false
         (set_trace
            (trace init ++
             [EvInterceptor
                (mkEvaluation (Some "0") (sample_fn [Identifier_node "x"])
                   (mkEnv vals (Some (mkEnv ∅ None)))
                   (PMetaFunction (sample_fn [Identifier_node "x"])
                      (mkEnv ∅ None)) enter)]) init)) /\
    trace (snd (evaluateMetaFunction (fun _ _ _ => BSuccess (VNum 3) BReturn)
                  (mkMetaesFunction (sample_fn [Identifier_node "x"])
                     (mkEnv ∅ None) (config_of (Observed false (Some "0"))))
                  observed_c observed_cerr (VStr "receiver")
                  [VNum 1; VNum 2] init)) =
      trace init ++
      EvInterceptor
        (mkEvaluation (Some "0") (sample_fn [Identifier_node "x"])
           (mkEnv vals (Some (mkEnv ∅ None)))
           (PMetaFunction (sample_fn [Identifier_node "x"]) (mkEnv ∅ None))
           enter) :: rest.
Proof.
  apply (frame_binds_this_and_arguments
           (fun _ _ _ => BSuccess (VNum 3) BReturn) false (Some "0")
           (sample_fn [Identifier_node "x"]) (mkEnv ∅ None)
           (VStr "receiver") [VNum 1; VNum 2] init).
  - repeat constructor.
  - repeat constructor. discriminate.
  - repeat constructor. discriminate.
Defined.






End MetaFunctionFacts.

(** ** Facts about the base evaluators *)

Module BaseFacts.
Import Base.

(** Induction along the [prev] links of a frame. *)
Lemma Environment_chain_ind (P : Environment -> Prop) :
  (forall vals, P (mkEnv vals None)) ->
  (forall vals p, P p -> P (mkEnv vals (Some p))) ->
  forall env, P env.
Proof.
  intros Hlast Hlink. fix IH 1. intros [vals [p|]].
  - apply Hlink. apply IH.
  - apply Hlast.
Qed.

Lemma lookup_chain_unbound (name : string) (env : Environment) :
  Forall (fun frame => values frame !! name = None) (chain env) ->
  lookup_chain name env = None.
Proof.
  induction env as [vals|vals p IH] using Environment_chain_ind;
    simpl; intros Hall; inversion Hall as [|? ? Hhere Hrest]; subst;
    simpl in Hhere; rewrite Hhere; [done|]. by apply IH.
Qed.

Lemma lookup_chain_nearest (name : string) (v : Value) (env : Environment) :
  forall (inner : list Environment) (frame : Environment)
         (outer : list Environment),
  chain env = inner ++ frame :: outer ->
  Forall (fun f => values f !! name = None) inner ->
  values frame !! name = Some v ->
  lookup_chain name env = Some v.
Proof.
  induction env as [vals|vals p IH] using Environment_chain_ind;
    intros inner frame outer Hchain Hinner Hframe; simpl in *.
  - destruct inner as [|f inner]; simpl in Hchain.
    + injection Hchain as <- _. simpl in Hframe. by rewrite Hframe.
    + injection Hchain as _ Hnil. by destruct inner.
  - destruct inner as [|f inner]; simpl in Hchain.
    + injection Hchain as <- _. simpl in Hframe. by rewrite Hframe.
    + injection Hchain as <- Hrest.
      inversion Hinner as [|? ? Hf Hinner']; subst. simpl in Hf. rewrite Hf.
      by apply (IH inner frame outer).
Qed.

(** C7.  When no frame of the environment chain binds the name of the node,
    [Identifier] calls [cerr] once, with the reference-error packet whose
    [location] is that node, and does not call [c].  When some frame binds
    it, [c] receives the value held by the innermost such frame and [cerr]
    is not called. *)
Theorem C7_Identifier_reports_unbound_names
    (e : Node) (env : Environment) (s : State) :
  (Forall (fun frame => values frame !! prop_key (name e) = None) (chain env) ->
   exists fields,
     Identifier e observed_c observed_cerr env s =
       (Normal tt, mkState (trace s ++ [EvCerr (VObject fields)]) (heap s)) /\
     assoc_get "location" fields = Some (VNode e)) /\
  (forall inner frame outer v,
     chain env = inner ++ frame :: outer ->
     Forall (fun f => values f !! prop_key (name e) = None) inner ->
     values frame !! prop_key (name e) = Some v ->
     Identifier e observed_c observed_cerr env s =
       (Normal tt, mkState (trace s ++ [EvC v]) (heap s))).
Proof.
  split.
  - intros Hunbound. unfold Identifier, getValue.
    rewrite (lookup_chain_unbound _ _ Hunbound).
    eexists. split; reflexivity.
  - intros inner frame outer v Hchain Hinner Hframe.
    unfold Identifier, getValue.
    by rewrite (lookup_chain_nearest _ v _ inner frame outer Hchain Hinner Hframe).
Qed.

Lemma C7_Identifier_reports_unbound_names_witness :
  (exists fields,
     Identifier (Identifier_node "window") observed_c observed_cerr sample_env
       init =
       (Normal tt, mkState (trace init ++ [EvCerr (VObject fields)]) (heap init)) /\
     assoc_get "location" fields = Some (VNode (Identifier_node "window"))) /\
  (Identifier (Identifier_node "a") observed_c observed_cerr sample_env init =
     (Normal tt, mkState (trace init ++ [EvC (VNum 1)]) (heap init))).
Proof.
  split.
  - apply (proj1 (C7_Identifier_reports_unbound_names
                    (Identifier_node "window") sample_env init)).
    repeat constructor.
  - apply (proj2 (C7_Identifier_reports_unbound_names (Identifier_node "a")
                    sample_env init)
             [] sample_env [mkEnv {["a" := VNum 7]} None] (VNum 1)).
    + reflexivity.
    + constructor.
    + vm_compute. reflexivity.
Defined.

(** *** [SetProperty] *)

Lemma read_write (object : nat) (property : string) (v : Value) (s : State) :
  read object property (write object property v s) = v.
Proof.
  unfold read, write, properties. cbn [heap].
  set (m := default ∅ (heap s !! object)).
  rewrite (lookup_insert_eq (heap s) object). unfold default at 2. cbn [from_option id].
  by rewrite (lookup_insert_eq m property).
Qed.

Section SetPropertyFacts.
Variable host_binop : HostOp -> Value -> Value -> Value.

Lemma SetProperty_supported (object : nat) (property : string) (value : Value)
    (operator : string) (op : option HostOp) (s : State) :
  (operator, op) ∈ assignment_operators ->
  SetProperty host_binop object property value operator
    observed_c observed_cerr s =
  (Normal tt,
   mkState
     (trace s ++ [EvC (assigned host_binop op (read object property s) value)])
     (heap (write object property
              (assigned host_binop op (read object property s) value) s))).
Proof.
  unfold assignment_operators. intros Hin.
  repeat (apply elem_of_cons in Hin as [Hin|Hin];
          [injection Hin as -> ->; reflexivity|]).
  by apply elem_of_nil in Hin.
Qed.

Lemma SetProperty_unsupported (object : nat) (property : string)
    (value : Value) (operator : string) (s : State) :
  operator ∉ assignment_operators.*1 ->
  SetProperty host_binop object property value operator
    observed_c observed_cerr s =
  (Normal tt,
   mkState
     (trace s ++
      [EvCerr (NotImplementedException
                 ("Operator '" +:+ operator +:+ "' is not supported.") None)])
     (heap s)).
Proof.
  intros Hnot. unfold SetProperty.
  repeat match goal with
         | |- context [String.eqb operator ?lit] =>
             destruct (String.eqb_spec operator lit) as [->|_];
             [exfalso; apply Hnot; vm_compute; repeat constructor|]
         end.
  reflexivity.
Qed.

(** C8.  For an operator of the set [=], [+=], [-=], [*=], [/=], [%=],
    [<<=], [>>=], [>>>=], [&=], [|=], [^=], [SetProperty] stores in
    [object[property]] the value of the corresponding host assignment (the
    value itself for [=], the host operator applied to the old property value
    and the value otherwise) and passes the stored value to [c]; [cerr] is not
    called.  For any other operator it calls [cerr] with a
    [NotImplementedException], does not call [c], and leaves the object store
    as it was. *)
Theorem C8_SetProperty_operators (object : nat) (property : string)
    (value : Value) (operator : string) (s : State) :
  (forall op, (operator, op) ∈ assignment_operators ->
     let stored := assigned host_binop op (read object property s) value in
     exists s',
       SetProperty host_binop object property value operator
         observed_c observed_cerr s = (Normal tt, s') /\
       trace s' = trace s ++ [EvC stored] /\
       read object property s' = stored /\
       heap s' = heap (write object property stored s)) /\
  (operator ∉ assignment_operators.*1 ->
     exists message s',
       SetProperty host_binop object property value operator
         observed_c observed_cerr s = (Normal tt, s') /\
       trace s' = trace s ++ [EvCerr (NotImplementedException message None)] /\
       heap s' = heap s).
Proof.
  split.
  - intros op Hin stored. eexists. split.
    + by apply SetProperty_supported.
    + split; [done|]. split; [|done].
      apply read_write.
  - intros Hnot. eexists _, _. split.
    + by apply SetProperty_unsupported.
    + by split.
Qed.

End SetPropertyFacts.

Lemma C8_SetProperty_operators_witness :
  (let stored := assigned Z_binop (Some Add)
                   (read 0 "n" sample_state) (VNum 2) in
   exists s',
     SetProperty Z_binop 0 "n" (VNum 2) "+=" observed_c observed_cerr
       sample_state = (Normal tt, s') /\
     trace s' = trace sample_state ++ [EvC stored] /\
     read 0 "n" s' = stored /\
     heap s' = heap (write 0 "n" stored sample_state)) /\
  (exists message s',
     SetProperty Z_binop 0 "n" (VNum 2) "**=" observed_c observed_cerr
       sample_state = (Normal tt, s') /\
     trace s' = trace sample_state ++
                [EvCerr (NotImplementedException message None)] /\
     heap s' = heap sample_state).
Proof.
  split.
  - apply (proj1 (C8_SetProperty_operators Z_binop 0 "n" (VNum 2) "+="
                    sample_state) (Some Add)).
    unfold assignment_operators. repeat constructor.
  - apply (proj2 (C8_SetProperty_operators Z_binop 0 "n" (VNum 2) "**="
                    sample_state)).
    intros Hin. vm_compute in Hin.
    repeat (apply elem_of_cons in Hin as [Hin|Hin]; [discriminate|]).
    by apply elem_of_nil in Hin.
Defined.

Example SetProperty_adds :
  read 0 "n"
    (snd (SetProperty Z_binop 0 "n" (VNum 2) "+=" observed_c observed_cerr
            sample_state)) = VNum 42.
Proof. vm_compute. reflexivity. Qed.

(** *** [Apply] *)

(** X8.  [Apply] calls the success continuation inside its [try] block: when
    the host function returns and the continuation then throws, the
    exception is caught and handed to [cerr], so both continuations have
    run. *)
Theorem Apply_hands_to_cerr_what_c_throws
    (fn : Value -> list Value -> M State Value) (thisObj : Value)
    (args : list Value) (c cerr : Value -> M State unit)
    (s s1 s2 : State) (r x : Value) :
  fn thisObj args s = (Normal r, s1) ->
  c r s1 = (Thrown x, s2) ->
  Apply fn thisObj args c cerr s = cerr x s2.
Proof.
  intros Hfn Hc. unfold Apply, try_catch, bind. by rewrite Hfn, Hc.
Qed.

Lemma Apply_hands_to_cerr_what_c_throws_witness :
  Apply (fun _ _ => ret (VNum 1)) VNull []
    (fun v => do _ <- observed_c v; throw (VStr "late")) observed_cerr init =
  observed_cerr (VStr "late") (mkState [EvC (VNum 1)] ∅).
Proof.
  apply (Apply_hands_to_cerr_what_c_throws (fun _ _ => ret (VNum 1)) VNull []
           (fun v => do _ <- observed_c v; throw (VStr "late")) observed_cerr
           init init (mkState [EvC (VNum 1)] ∅) (VNum 1) (VStr "late"));
    reflexivity.
Defined.

(** X9.  An exception leaves [Apply] only through [cerr]: whatever the host
    function and the success continuation do, if [Apply] throws then it is
    [cerr] that threw.  With an error continuation that returns, [Apply]
    returns. *)
Theorem Apply_throws_only_what_cerr_throws
    (fn : Value -> list Value -> M State Value) (thisObj : Value)
    (args : list Value) (c cerr : Value -> M State unit)
    (s s' : State) (x : Value) :
  Apply fn thisObj args c cerr s = (Thrown x, s') ->
  exists y s1, cerr y s1 = (Thrown x, s').
Proof.
  unfold Apply, try_catch, bind.
  destruct (fn thisObj args s) as [[r|y] s1].
  - destruct (c r s1) as [[u|y] s2]; [discriminate|]. intros H. by exists y, s2.
  - intros H. by exists y, s1.
Qed.

Lemma Apply_throws_only_what_cerr_throws_witness :
  exists y s1,
    (fun e : Value => @throw State unit e) y s1 = (Thrown (VNum 1), init).
Proof.
  apply (Apply_throws_only_what_cerr_throws (fun _ _ => throw (VNum 1)) VNull []
           observed_c (fun e => throw e) init init (VNum 1)).
  reflexivity.
Defined.

(** *** Reading back what was written *)


Section ReadBack.
Variable host_binop : HostOp -> Value -> Value -> Value.


End ReadBack.



End BaseFacts.

(** ** Facts about the evaluation context *)

Module MetaesFacts.
Import Metaes.

Lemma bind_normal {S A B} (m : M S A) (k : A -> M S B) (s s' : S) (a : A) :
  m s = (Normal a, s') -> bind m k s = k a s'.
Proof. intros Hm. unfold bind. by rewrite Hm. Qed.

(** Script ids are never the empty string. *)
Lemma pretty_N_go_nonempty (x : N) :
  forall s : string, s <> "" -> pretty_N_go x s <> "".
Proof.
  induction (N.lt_wf_0 x) as [x _ IH]. intros s Hs.
  destruct (decide (x = 0)%N) as [->|Hx].
  - by rewrite pretty_N_go_0.
  - rewrite pretty_N_go_step by lia. apply IH; [|done].
    apply N.div_lt; lia.
Qed.

Lemma pretty_nat_nonempty (n : nat) : String.eqb (pretty n) "" = false.
Proof.
  apply String.eqb_neq. unfold pretty, pretty_nat, pretty, pretty_N.
  case_decide; [done|].
  rewrite pretty_N_go_step by lia. by apply pretty_N_go_nonempty.
Qed.

Lemma dispatched_app (t1 t2 : list Event) :
  dispatched (t1 ++ t2) = dispatched t1 ++ dispatched t2.
Proof. unfold dispatched. apply omap_app. Qed.

Lemma dispatched_evaluate (node : Node) (env : Environment) (r : nat)
    (o : ConfigObj) (t : list Event) :
  dispatched (EvEvaluate node env r o :: t) = o :: dispatched t.
Proof. reflexivity. Qed.

Section Quiet.
Context {A B : Type}.

Lemma quiet_ret (a : A) : quiet (ret a).
Proof. intros s. repeat split. exists []. by rewrite app_nil_r. Qed.

Lemma quiet_throw (x : Value) : quiet (@throw State A x).
Proof. intros s. repeat split. exists []. by rewrite app_nil_r. Qed.

Lemma quiet_bind (m : M State A) (k : A -> M State B) :
  quiet m -> (forall a, quiet (k a)) -> quiet (bind m k).
Proof.
  intros Hm Hk s. unfold bind.
  destruct (Hm s) as (Hc1 & Hh1 & evs1 & Ht1 & Hd1).
  destruct (m s) as [[a|x] s1]; simpl in *.
  - destruct (Hk a s1) as (Hc2 & Hh2 & evs2 & Ht2 & Hd2).
    split; [congruence|]. split; [congruence|].
    exists (evs1 ++ evs2). rewrite Ht2, Ht1, app_assoc, dispatched_app, Hd1, Hd2.
    by split.
  - split; [done|]. split; [done|]. by exists evs1.
Qed.

Lemma quiet_try_catch (m : M State A) (h : Value -> M State A) :
  quiet m -> (forall x, quiet (h x)) -> quiet (try_catch m h).
Proof.
  intros Hm Hh s. unfold try_catch.
  destruct (Hm s) as (Hc1 & Hh1 & evs1 & Ht1 & Hd1).
  destruct (m s) as [[a|x] s1]; simpl in *.
  - split; [done|]. split; [done|]. by exists evs1.
  - destruct (Hh x s1) as (Hc2 & Hh2 & evs2 & Ht2 & Hd2).
    split; [congruence|]. split; [congruence|].
    exists (evs1 ++ evs2). rewrite Ht2, Ht1, app_assoc, dispatched_app, Hd1, Hd2.
    by split.
Qed.
End Quiet.

Lemma quiet_callback (supplied : bool) (is_c : bool) (v : Value) :
  quiet (call_opt (callback supplied (if is_c then observed_c else observed_cerr)) v).
Proof.
  destruct supplied; simpl; [|apply quiet_ret].
  intros s. destruct is_c; simpl; repeat split; by eexists [_].
Qed.

Lemma quiet_run (hc hcerr : bool) (b : Body) :
  quiet (run b (fun val => call_opt (callback hc observed_c) val)
               (fun exception => call_opt (callback hcerr observed_cerr) exception)).
Proof.
  induction b as [|x|v k IHk|p k IHk|b IHb h IHh k IHk]; simpl.
  - apply quiet_ret.
  - apply quiet_throw.
  - apply quiet_bind; [apply (quiet_callback hc true)|]. intros _. exact IHk.
  - apply quiet_bind; [apply (quiet_callback hcerr false)|]. intros _. exact IHk.
  - apply quiet_bind; [|intros _; exact IHk].
    apply quiet_try_catch; [exact IHb|]. intros x. apply IHh.
Qed.

Lemma quiet_handler (hcerr : bool) (x : Value) :
  quiet (match callback hcerr observed_cerr with
         | Some f => f x
         | None => throw x
         end).
Proof.
  destruct hcerr; simpl; [|apply quiet_throw].
  intros s. repeat split. by eexists [_].
Qed.

(** *** The guarded writes *)

Lemma state_eta (s : State) :
  mkState (scriptIdsCounter s) (heap s) (trace s) = s.
Proof. by destruct s. Qed.

Lemma deref_live (r : nat) (o : ConfigObj) (s : State) :
  heap s !! r = Some o -> deref r s = (Normal o, s).
Proof. intros Hr. unfold deref, gets. by rewrite Hr. Qed.

Lemma interceptor_write (r : nat) (o : ConfigObj) (s : State) :
  heap s !! r = Some o ->
  (if interceptor o is Some _ then ret tt
   else update r (set_interceptor noop)) s =
  (Normal tt,
   mkState (scriptIdsCounter s) (<[r := with_interceptor o]> (heap s)) (trace s)).
Proof.
  intros Hr. unfold with_interceptor. destruct (interceptor o) eqn:Hi.
  - unfold ret. by rewrite list_insert_id, state_eta.
  - unfold update, modify. by rewrite Hr.
Qed.

Lemma scriptId_write (r : nat) (o : ConfigObj) (s : State) :
  heap s !! r = Some o ->
  (if no_scriptId o then
     do n <- next_scriptId;
     update r (set_scriptId (pretty n))
   else ret tt) s =
  (Normal tt,
   mkState (if no_scriptId o then S (scriptIdsCounter s) else scriptIdsCounter s)
           (<[r := with_scriptId (scriptIdsCounter s) o]> (heap s)) (trace s)).
Proof.
  intros Hr. unfold with_scriptId. destruct (no_scriptId o) eqn:Hn.
  - unfold bind, next_scriptId, update, modify. simpl. by rewrite Hr.
  - unfold ret. by rewrite list_insert_id, state_eta.
Qed.

Lemma no_scriptId_with_interceptor (o : ConfigObj) :
  no_scriptId (with_interceptor o) = no_scriptId o.
Proof. unfold with_interceptor. by destruct (interceptor o). Qed.

Section Dispatch.
Variable parse : string -> option ParseOptions -> Node + Value.
Variable evaluate : Node -> Environment -> ConfigObj -> Body.

(** What one call does once the source has been resolved to a node. *)
Lemma metaesEval_resolved (source : Source) (node : Node) (hc hcerr : bool)
    (environment : option EnvArg) (r : nat) (o : ConfigObj) (s : State) :
  heap s !! r = Some o ->
  source_node parse source = inl node ->
  let o' := with_scriptId (scriptIdsCounter s) (with_interceptor o) in
  let s' := snd (metaesEval parse evaluate source (callback hc observed_c)
                   (callback hcerr observed_cerr) environment (Some r) s) in
  scriptIdsCounter s' =
    (if no_scriptId o then S (scriptIdsCounter s) else scriptIdsCounter s) /\
  heap s' = <[r := o']> (heap s) /\
  exists evs,
    trace s' = trace s ++ EvEvaluate node (frame_of environment) r o' :: evs /\
    dispatched evs = [].
Proof.
  intros Hr Hsrc o' s'. subst s'.
  pose proof (lookup_lt_Some _ _ _ Hr) as Hlt.
  unfold metaesEval.
  erewrite bind_normal by reflexivity.
  erewrite bind_normal by (by apply deref_live).
  erewrite bind_normal by (by apply interceptor_write).
  set (sA := mkState _ (<[r := with_interceptor o]> (heap s)) _).
  assert (HrA : heap sA !! r = Some (with_interceptor o)).
  { unfold sA. simpl. by apply list_lookup_insert_eq. }
  unfold try_catch.
  erewrite bind_normal by (unfold resolve; rewrite Hsrc; reflexivity).
  erewrite bind_normal by (by apply deref_live).
  erewrite bind_normal by (by apply scriptId_write).
  set (sB := mkState _ (<[r := with_scriptId _ _]> (heap sA)) _).
  assert (HrB : heap sB !! r = Some o').
  { unfold sB. simpl. apply list_lookup_insert_eq.
    by rewrite length_insert. }
  erewrite bind_normal by (by apply deref_live).
  erewrite bind_normal by reflexivity.
  set (sC := mkState _ _ _).
  fold (frame_of environment).
  destruct (quiet_run hc hcerr
              (evaluate node (frame_of environment) o') sC)
    as (Hc & Hh & evs & Ht & Hd).
  destruct (run _ _ _ sC) as [[[]|x] s1]; simpl in *.
  - rewrite Hc, Hh, Ht. unfold sC, sB, sA. simpl.
    rewrite no_scriptId_with_interceptor, list_insert_insert_eq.
    split; [done|]. split; [done|]. exists evs. by rewrite <- app_assoc.
  - destruct (quiet_handler hcerr x s1) as (Hc2 & Hh2 & evs2 & Ht2 & Hd2).
    rewrite Hc2, Hh2, Ht2, Hc, Hh, Ht. unfold sC, sB, sA. simpl.
    rewrite no_scriptId_with_interceptor, list_insert_insert_eq.
    split; [done|]. split; [done|]. exists (evs ++ evs2).
    rewrite dispatched_app, Hd, Hd2. by rewrite <- !app_assoc.
Qed.

(** The interceptor is written before the source is looked at. *)
Lemma metaesEval_installs_interceptor (source : Source) (hc hcerr : bool)
    (environment : option EnvArg) (r : nat) (o : ConfigObj) (s : State) :
  heap s !! r = Some o ->
  exists o1,
    heap (snd (metaesEval parse evaluate source (callback hc observed_c)
                 (callback hcerr observed_cerr) environment (Some r) s)) !! r =
      Some o1 /\
    interceptor o1 = interceptor (with_interceptor o).
Proof.
  intros Hr. pose proof (lookup_lt_Some _ _ _ Hr) as Hlt.
  destruct (source_node parse source) as [node|x] eqn:Hsrc.
  - destruct (metaesEval_resolved source node hc hcerr environment r o s Hr Hsrc)
      as (_ & Hh & _).
    rewrite Hh. eexists. split; [by apply list_lookup_insert_eq|].
    unfold with_scriptId. by destruct (no_scriptId _).
  - unfold metaesEval.
    erewrite bind_normal by reflexivity.
    erewrite bind_normal by (by apply deref_live).
    erewrite bind_normal by (by apply interceptor_write).
    unfold try_catch, bind at 1, resolve. rewrite Hsrc. unfold throw at 1.
    match goal with
    | |- context [snd (?h ?sA)] =>
        destruct (quiet_handler hcerr x sA) as (_ & Hh & _)
    end.
    rewrite Hh. simpl. exists (with_interceptor o).
    split; [by apply list_lookup_insert_eq|done].
Qed.

Lemma with_interceptor_idem (n : nat) (o : ConfigObj) :
  with_interceptor (with_scriptId n (with_interceptor o)) =
  with_scriptId n (with_interceptor o).
Proof.
  unfold with_interceptor, with_scriptId.
  destruct (interceptor o) eqn:Hi; destruct (no_scriptId _); simpl;
    by rewrite ?Hi.
Qed.

Lemma no_scriptId_with_scriptId (n : nat) (o : ConfigObj) :
  no_scriptId (with_scriptId n o) = false.
Proof.
  unfold with_scriptId. destruct (no_scriptId o) eqn:Hn; [|done].
  unfold no_scriptId. simpl. apply pretty_nat_nonempty.
Qed.

Lemma with_scriptId_idem (n m : nat) (o : ConfigObj) :
  with_scriptId m (with_scriptId n o) = with_scriptId n o.
Proof.
  unfold with_scriptId at 1. by rewrite no_scriptId_with_scriptId.
Qed.

(** C10 (as amended).  [metaesEval] writes into the configuration object it
    is handed.  When the object has no interceptor, the no-op interceptor is
    stored in it, whatever the source.  When the source resolves to a node
    and the object has no script id, the decimal rendering of the global
    counter is stored in it and the counter advances.  A second call on the
    same object, with a source that resolves, then finds both properties
    present: it dispatches under the very same configuration, hence the same
    script id, and leaves the counter alone. *)
Theorem C10_metaesEval_writes_into_the_shared_config
    (hc1 hcerr1 hc2 hcerr2 : bool) (environment1 environment2 : option EnvArg)
    (r : nat) (o : ConfigObj) (s : State) :
  heap s !! r = Some o ->
  (interceptor o = None ->
   forall source, exists o1,
     heap (snd (metaesEval parse evaluate source (callback hc1 observed_c)
                  (callback hcerr1 observed_cerr) environment1 (Some r) s)) !! r =
       Some o1 /\
     interceptor o1 = Some noop) /\
  (forall source1 source2 node1 node2,
     source_node parse source1 = inl node1 ->
     source_node parse source2 = inl node2 ->
     let s1 := snd (metaesEval parse evaluate source1 (callback hc1 observed_c)
                      (callback hcerr1 observed_cerr) environment1 (Some r) s) in
     let s2 := snd (metaesEval parse evaluate source2 (callback hc2 observed_c)
                      (callback hcerr2 observed_cerr) environment2 (Some r) s1) in
     exists o1,
       heap s1 !! r = Some o1 /\
       (no_scriptId o = true ->
          scriptId o1 = Some (pretty (scriptIdsCounter s)) /\
          scriptIdsCounter s1 = S (scriptIdsCounter s)) /\
       heap s2 !! r = Some o1 /\
       scriptIdsCounter s2 = scriptIdsCounter s1 /\
       dispatched (trace s2) = dispatched (trace s) ++ [o1; o1]).
Proof.
  intros Hr. pose proof (lookup_lt_Some _ _ _ Hr) as Hlt. split.
  - intros Hi source.
    destruct (metaesEval_installs_interceptor source hc1 hcerr1 environment1
                r o s Hr) as (o1 & Ho1 & Hi1).
    exists o1. split; [done|]. rewrite Hi1.
    unfold with_interceptor. by rewrite Hi.
  - intros source1 source2 node1 node2 Hsrc1 Hsrc2 s1 s2.
    set (o1 := with_scriptId (scriptIdsCounter s) (with_interceptor o)).
    destruct (metaesEval_resolved source1 node1 hc1 hcerr1 environment1 r o s
                Hr Hsrc1) as (Hc1 & Hh1 & evs1 & Ht1 & Hd1).
    fold s1 in Hc1, Hh1, Ht1. fold o1 in Hh1, Ht1.
    assert (Hr1 : heap s1 !! r = Some o1).
    { rewrite Hh1. by apply list_lookup_insert_eq. }
    destruct (metaesEval_resolved source2 node2 hc2 hcerr2 environment2 r o1 s1
                Hr1 Hsrc2) as (Hc2 & Hh2 & evs2 & Ht2 & Hd2).
    fold s2 in Hc2, Hh2, Ht2.
    unfold o1 in Hc2, Hh2, Ht2.
    rewrite no_scriptId_with_scriptId in Hc2.
    rewrite with_interceptor_idem, with_scriptId_idem in Hh2, Ht2.
    fold o1 in Hh2, Ht2.
    exists o1. split; [done|]. split.
    { intros Hn. split; [|by rewrite Hc1, Hn].
      unfold o1, with_scriptId.
      by rewrite no_scriptId_with_interceptor, Hn. }
    split.
    { rewrite Hh2. apply list_lookup_insert_eq.
      rewrite Hh1. by rewrite length_insert. }
    split; [done|].
    rewrite Ht2, Ht1.
    rewrite !dispatched_app, !dispatched_evaluate, Hd1, Hd2.
    by rewrite <- app_assoc.
Qed.

Lemma or_else_callback (a b : bool) (f : Value -> M State unit) :
  or_else (callback a f) (callback b f) = callback (a || b) f.
Proof. by destruct a, b. Qed.


End Dispatch.

Lemma C10_metaesEval_writes_into_the_shared_config_witness :
  (exists o1,
     heap (snd (metaesEval failing_parse (answer (VNum 4)) (SourceText "2+")
                  (callback true observed_c) (callback true observed_cerr)
                  None (Some 1) sample_state)) !! 1 = Some o1 /\
     interceptor o1 = Some noop) /\
  (let s1 := snd (metaesEval failing_parse (answer (VNum 4))
                    (SourceNode program) (callback true observed_c)
                    (callback true observed_cerr) None (Some 0) sample_state) in
   let s2 := snd (metaesEval failing_parse (answer (VNum 4))
                    (SourceNode program) (callback false observed_c)
                    (callback false observed_cerr) None (Some 0) s1) in
   exists o1,
     heap s1 !! 0 = Some o1 /\
     (no_scriptId (mkConfigObj (Some (host_fn 1)) None None) = true ->
        scriptId o1 = Some (pretty (scriptIdsCounter sample_state)) /\
        scriptIdsCounter s1 = S (scriptIdsCounter sample_state)) /\
     heap s2 !! 0 = Some o1 /\
     scriptIdsCounter s2 = scriptIdsCounter s1 /\
     dispatched (trace s2) = dispatched (trace sample_state) ++ [o1; o1]).
Proof.
  split.
  - apply (proj1 (C10_metaesEval_writes_into_the_shared_config failing_parse
                    (answer (VNum 4)) true true true true None None 1
                    (mkConfigObj None (Some "s") None) sample_state eq_refl)
             eq_refl).
  - apply (proj2 (C10_metaesEval_writes_into_the_shared_config failing_parse
                    (answer (VNum 4)) true true false false None None 0
                    (mkConfigObj (Some (host_fn 1)) None None) sample_state
                    eq_refl)
             (SourceNode program) (SourceNode program) program program
             eq_refl eq_refl).
Defined.


(** C10 (counterexample).  The script id is assigned inside the [try]
    block, after the source has been resolved.  With a source text that the
    parser rejects and a configuration without a script id, the call reports
    the parser's exception to [cerr] and returns: the configuration has
    received the no-op interceptor but no script id, and the counter has not
    moved. *)
Lemma C10_no_scriptId_when_the_source_does_not_parse :
  metaesEval failing_parse (answer (VNum 4)) (SourceText "2+")
    (Some observed_c) (Some observed_cerr) None (Some 0)
    (mkState 0 [empty_config] []) =
  (Normal tt,
   mkState 0 [mkConfigObj (Some noop) None None]
     [EvCerr (VObject [("name", VStr "SyntaxError")])]).
Proof. vm_compute. reflexivity. Qed.


Example fresh_scriptId_is_the_counter :
  dispatched
    (trace (snd (metaesEval failing_parse (answer (VNum 4)) (SourceNode program)
                   None None None None (mkState 7 [] [])))) =
  [mkConfigObj (Some noop) (Some "7") None].
Proof. vm_compute. reflexivity. Qed.

(** *** Further facts about [metaesEval] and [MetaesContext.evaluate] *)

Lemma run_without_callbacks (b : Body) :
  forall s : State,
    run b (fun val => call_opt None val) (fun exception => call_opt None exception) s =
    (match escapes b with
     | None => Normal tt
     | Some x => Thrown x
     end, s).
Proof.
  induction b as [|x|v k IHk|p k IHk|b IHb h IHh k IHk]; intros s; simpl.
  - reflexivity.
  - reflexivity.
  - unfold bind. simpl. apply IHk.
  - unfold bind. simpl. apply IHk.
  - unfold bind, try_catch. rewrite IHb.
    destruct (escapes b) as [x|].
    + rewrite IHh. destruct (escapes (h x)); [reflexivity|apply IHk].
    + apply IHk.
Qed.

Section Calls.
Variable parse : string -> option ParseOptions -> Node + Value.
Variable evaluate : Node -> Environment -> ConfigObj -> Body.

(** X12.  With an error continuation, [metaesEval] returns: whatever the
    source, the environment, the configuration and the evaluator, a parser
    exception or an exception escaping from the evaluator is handed to [cerr]
    and nothing is thrown to the caller. *)
Theorem metaesEval_returns_when_cerr_is_given
    (source : Source) (hc : bool) (environment : option EnvArg)
    (config : option nat) (s : State) :
  fst (metaesEval parse evaluate source (callback hc observed_c)
         (Some observed_cerr) environment config s) = Normal tt.
Proof.
  unfold metaesEval.
  assert (Hgo : forall r s0,
    fst ((do o <- deref r;
          do _ <- (if interceptor o is Some _ then ret tt
                   else update r (set_interceptor noop));
          try_catch
            (do node <- resolve parse source;
             let env := match default (Bindings ∅) environment with
                        | Frame env => env
                        | Bindings vals => mkEnv vals None
                        end in
             do o <- deref r;
             do _ <- (if no_scriptId o then
                        do n <- next_scriptId;
                        update r (set_scriptId (pretty n))
                      else ret tt);
             do snapshot <- deref r;
             do _ <- emit (EvEvaluate node env r snapshot);
             run (evaluate node env snapshot)
               (fun val => call_opt (callback hc observed_c) val)
               (fun exception => call_opt (Some observed_cerr) exception))
            (fun e => observed_cerr e)) s0) = Normal tt).
  { intros r s0. unfold bind at 1. unfold deref at 1. unfold gets at 1.
    unfold bind at 1.
    destruct (interceptor (default empty_config (heap s0 !! r))); simpl;
      unfold try_catch;
      match goal with
      | |- context [match ?m ?st with _ => _ end] =>
          destruct (m st) as [[[]|x] s2]
      end; reflexivity. }
  destruct config as [r|].
  - erewrite bind_normal by reflexivity. apply Hgo.
  - erewrite bind_normal by reflexivity. apply Hgo.
Qed.

(** X13.  When the source does not resolve to a node (the parser throws),
    nothing is dispatched, [c] is not called, the counter of script ids does
    not move and the configuration receives no script id, only the no-op
    interceptor when it had none; the parser's exception goes to [cerr] when
    there is one, and is thrown to the caller otherwise. *)
Theorem metaesEval_reports_what_the_parser_throws
    (source : Source) (x : Value) (hc hcerr : bool)
    (environment : option EnvArg) (r : nat) (o : ConfigObj) (s : State) :
  heap s !! r = Some o ->
  source_node parse source = inr x ->
  metaesEval parse evaluate source (callback hc observed_c)
    (callback hcerr observed_cerr) environment (Some r) s =
  (if hcerr then Normal tt else Thrown x,
   mkState (scriptIdsCounter s) (<[r := with_interceptor o]> (heap s))
     (trace s ++ if hcerr then [EvCerr x] else [])).
Proof.
  intros Hr Hsrc. unfold metaesEval.
  erewrite bind_normal by reflexivity.
  erewrite bind_normal by (by apply deref_live).
  erewrite bind_normal by (by apply interceptor_write).
  unfold try_catch, bind at 1, resolve. rewrite Hsrc. unfold throw at 1.
  destruct hcerr; simpl; [reflexivity|].
  unfold throw. by rewrite app_nil_r.
Qed.

(** X14.  Without continuations, what the evaluator reports is dropped: for
    a source that resolves, the call dispatches once and calls nothing else,
    whatever results and exception packets the evaluator hands to its
    continuations; it throws only a host exception that the evaluator itself
    lets escape. *)
Theorem metaesEval_without_continuations_is_silent
    (source : Source) (node : Node) (environment : option EnvArg)
    (r : nat) (o : ConfigObj) (s : State) :
  heap s !! r = Some o ->
  source_node parse source = inl node ->
  let o' := with_scriptId (scriptIdsCounter s) (with_interceptor o) in
  metaesEval parse evaluate source None None environment (Some r) s =
  (match escapes (evaluate node (frame_of environment) o') with
   | None => Normal tt
   | Some x => Thrown x
   end,
   mkState (if no_scriptId o then S (scriptIdsCounter s) else scriptIdsCounter s)
     (<[r := o']> (heap s))
     (trace s ++ [EvEvaluate node (frame_of environment) r o'])).
Proof.
  intros Hr Hsrc o'.
  pose proof (lookup_lt_Some _ _ _ Hr) as Hlt.
  unfold metaesEval.
  erewrite bind_normal by reflexivity.
  erewrite bind_normal by (by apply deref_live).
  erewrite bind_normal by (by apply interceptor_write).
  set (sA := mkState _ (<[r := with_interceptor o]> (heap s)) _).
  assert (HrA : heap sA !! r = Some (with_interceptor o)).
  { unfold sA. simpl. by apply list_lookup_insert_eq. }
  unfold try_catch.
  erewrite bind_normal by (unfold resolve; rewrite Hsrc; reflexivity).
  erewrite bind_normal by (by apply deref_live).
  erewrite bind_normal by (by apply scriptId_write).
  set (sB := mkState _ (<[r := with_scriptId _ _]> (heap sA)) _).
  assert (HrB : heap sB !! r = Some o').
  { unfold sB. simpl. apply list_lookup_insert_eq. by rewrite length_insert. }
  erewrite bind_normal by (by apply deref_live).
  erewrite bind_normal by reflexivity.
  fold (frame_of environment).
  rewrite run_without_callbacks.
  unfold sB, sA. simpl.
  rewrite no_scriptId_with_interceptor, list_insert_insert_eq.
  by destruct (escapes _).
Qed.

Lemma metaesEval_default_config (source : Source)
    (c cerr : option (Value -> M State unit)) (environment : option EnvArg)
    (s : State) :
  metaesEval parse evaluate source c cerr environment None s =
  metaesEval parse evaluate source c cerr environment (Some (length (heap s)))
    (mkState (scriptIdsCounter s) (heap s ++ [empty_config]) (trace s)).
Proof. reflexivity. Qed.

Lemma pretty_nat_succ_ne (n : nat) : pretty n <> pretty (S n).
Proof. intros Heq. apply (inj pretty) in Heq. lia. Qed.

(** X15.  Two calls of [metaesEval] without a configuration argument, on
    sources that resolve, do not share a script id: each call creates its own
    configuration object, the first evaluates under the counter's value and
    the second under the next one, and the two ids differ. *)
Theorem metaesEval_without_config_takes_fresh_ids
    (source1 source2 : Source) (node1 node2 : Node)
    (hc1 hcerr1 hc2 hcerr2 : bool) (environment1 environment2 : option EnvArg)
    (s : State) :
  source_node parse source1 = inl node1 ->
  source_node parse source2 = inl node2 ->
  let s1 := snd (metaesEval parse evaluate source1 (callback hc1 observed_c)
                   (callback hcerr1 observed_cerr) environment1 None s) in
  let s2 := snd (metaesEval parse evaluate source2 (callback hc2 observed_c)
                   (callback hcerr2 observed_cerr) environment2 None s1) in
  let n := scriptIdsCounter s in
  dispatched (trace s2) =
    dispatched (trace s) ++
    [mkConfigObj (Some noop) (Some (pretty n)) None;
     mkConfigObj (Some noop) (Some (pretty (S n))) None] /\
  pretty n <> pretty (S n) /\
  scriptIdsCounter s2 = S (S n) /\
  heap s2 = heap s ++
            [mkConfigObj (Some noop) (Some (pretty n)) None;
             mkConfigObj (Some noop) (Some (pretty (S n))) None].
Proof.
  intros Hsrc1 Hsrc2 s1 s2 n.
  assert (Hcall : forall source node hc hcerr environment s0,
    source_node parse source = inl node ->
    let s' := snd (metaesEval parse evaluate source (callback hc observed_c)
                     (callback hcerr observed_cerr) environment None s0) in
    let o := mkConfigObj (Some noop) (Some (pretty (scriptIdsCounter s0))) None in
    scriptIdsCounter s' = S (scriptIdsCounter s0) /\
    heap s' = heap s0 ++ [o] /\
    dispatched (trace s') = dispatched (trace s0) ++ [o]).
  { intros source node hc hcerr environment s0 Hsrc.
    rewrite metaesEval_default_config.
    set (sA := mkState _ (heap s0 ++ [empty_config]) _).
    assert (HrA : heap sA !! length (heap s0) = Some empty_config).
    { unfold sA. simpl. by apply list_lookup_middle. }
    destruct (metaesEval_resolved parse evaluate source node hc hcerr
                environment (length (heap s0)) empty_config sA HrA Hsrc)
      as (Hc & Hh & evs & Ht & Hd).
    simpl. rewrite Hc, Hh, Ht. unfold sA. simpl. split; [done|]. split.
    - rewrite insert_app_r_alt by done. by rewrite Nat.sub_diag.
    - by rewrite dispatched_app, dispatched_evaluate, Hd. }
  destruct (Hcall source1 node1 hc1 hcerr1 environment1 s Hsrc1)
    as (Hc1 & Hh1 & Hd1).
  destruct (Hcall source2 node2 hc2 hcerr2 environment2 s1 Hsrc2)
    as (Hc2 & Hh2 & Hd2).
  fold s1 in Hc1, Hh1, Hd1. fold s2 in Hc2, Hh2, Hd2. fold n in Hc1, Hh1, Hd1.
  rewrite Hc1 in Hc2, Hh2, Hd2.
  split; [by rewrite Hd2, Hd1, <- app_assoc|].
  split; [apply pretty_nat_succ_ne|].
  split; [done|]. by rewrite Hh2, Hh1, <- app_assoc.
Qed.

(** What one call through a context does once the source has resolved,
    with or without an environment argument and a configuration argument. *)
Lemma context_evaluate_resolved
    (dc dcerr hc hcerr : bool) (root : Environment) (default_config : nat)
    (source : Source) (node : Node) (environment : option EnvironmentBase)
    (config : option nat) (used : ConfigObj) (s : State) :
  source_node parse source = inl node ->
  heap s !! default default_config config = Some used ->
  let this := mkMetaesContext (callback dc observed_c)
                (callback dcerr observed_cerr) root default_config in
  let s' := snd (MetaesContext_evaluate parse evaluate this source
                   (callback hc observed_c) (callback hcerr observed_cerr)
                   environment config s) in
  let o' := with_scriptId (scriptIdsCounter s) (with_interceptor used) in
  scriptIdsCounter s' =
    (if no_scriptId used then S (scriptIdsCounter s) else scriptIdsCounter s) /\
  heap s' = heap s ++ [o'] /\
  exists evs,
    trace s' =
      trace s ++
      EvEvaluate node
        (match environment with
         | Some base => mkEnv (base_values base) (Some root)
         | None => root
         end)
        (length (heap s)) o' :: evs /\
    dispatched evs = [].
Proof.
  intros Hsrc Hused this s' o'. subst s'.
  unfold MetaesContext_evaluate.
  erewrite bind_normal by (by apply deref_live).
  erewrite bind_normal by reflexivity.
  simpl ctx_c. simpl ctx_cerr. simpl ctx_environment.
  rewrite !or_else_callback.
  set (sA := mkState _ (heap s ++ [used]) _).
  assert (HrA : heap sA !! length (heap s) = Some used).
  { unfold sA. simpl. by apply list_lookup_middle. }
  destruct (metaesEval_resolved parse evaluate source node (hc || dc)
              (hcerr || dcerr)
              (Some (Frame (match environment with
                            | Some base => mkEnv (base_values base) (Some root)
                            | None => root
                            end)))
              (length (heap s)) used sA HrA Hsrc)
    as (Hc & Hh & evs & Ht & Hd).
  rewrite Hc, Hh, Ht. unfold sA. simpl. split; [done|]. split.
  - rewrite insert_app_r_alt by done. by rewrite Nat.sub_diag.
  - by exists evs.
Qed.

(** X16.  [MetaesContext.evaluate] works on a copy of the configuration, so
    the context's own configuration object is never written to: when it has
    no script id, two evaluations through the context (sources that resolve,
    no configuration argument) run under two different fresh ids, and the
    context's configuration still has none. *)
Theorem context_evaluations_take_fresh_ids
    (dc dcerr hc1 hcerr1 hc2 hcerr2 : bool) (root : Environment)
    (default_config : nat) (source1 source2 : Source) (node1 node2 : Node)
    (environment1 environment2 : option EnvironmentBase)
    (d : ConfigObj) (s : State) :
  source_node parse source1 = inl node1 ->
  source_node parse source2 = inl node2 ->
  heap s !! default_config = Some d ->
  no_scriptId d = true ->
  let this := mkMetaesContext (callback dc observed_c)
                (callback dcerr observed_cerr) root default_config in
  let s1 := snd (MetaesContext_evaluate parse evaluate this source1
                   (callback hc1 observed_c) (callback hcerr1 observed_cerr)
                   environment1 None s) in
  let s2 := snd (MetaesContext_evaluate parse evaluate this source2
                   (callback hc2 observed_c) (callback hcerr2 observed_cerr)
                   environment2 None s1) in
  let n := scriptIdsCounter s in
  dispatched (trace s2) =
    dispatched (trace s) ++
    [set_scriptId (pretty n) (with_interceptor d);
     set_scriptId (pretty (S n)) (with_interceptor d)] /\
  pretty n <> pretty (S n) /\
  heap s2 !! default_config = Some d.
Proof.
  intros Hsrc1 Hsrc2 Hd Hno this s1 s2 n.
  pose proof (lookup_lt_Some _ _ _ Hd) as Hlt.
  destruct (context_evaluate_resolved dc dcerr hc1 hcerr1 root default_config
              source1 node1 environment1 None d s Hsrc1 Hd)
    as (Hc1 & Hh1 & evs1 & Ht1 & Hd1).
  fold this s1 in Hc1, Hh1, Ht1.
  assert (Hd' : heap s1 !! default_config = Some d).
  { rewrite Hh1. by apply lookup_app_l_Some. }
  destruct (context_evaluate_resolved dc dcerr hc2 hcerr2 root default_config
              source2 node2 environment2 None d s1 Hsrc2 Hd')
    as (Hc2 & Hh2 & evs2 & Ht2 & Hd2).
  fold this s2 in Hc2, Hh2, Ht2.
  rewrite Hno in Hc1. rewrite Hc1 in Ht2, Hh2.
  unfold with_scriptId in Ht1, Ht2, Hh1, Hh2.
  rewrite no_scriptId_with_interceptor, Hno in Ht1, Ht2, Hh1, Hh2.
  split.
  - rewrite Ht2, Ht1.
    rewrite !dispatched_app, !dispatched_evaluate, Hd1, Hd2.
    by rewrite <- app_assoc.
  - split; [apply pretty_nat_succ_ne|].
    rewrite Hh2. by apply lookup_app_l_Some.
Qed.

(** X17.  Without an environment argument, [MetaesContext.evaluate]
    dispatches in the context's root frame itself, not in a child of it; the
    configuration is still a fresh copy. *)
Theorem context_evaluate_without_environment_uses_the_root
    (dc dcerr hc hcerr : bool) (root : Environment) (default_config : nat)
    (source : Source) (node : Node) (config : option nat) (used : ConfigObj)
    (s : State) :
  source_node parse source = inl node ->
  heap s !! default default_config config = Some used ->
  let this := mkMetaesContext (callback dc observed_c)
                (callback dcerr observed_cerr) root default_config in
  let s' := snd (MetaesContext_evaluate parse evaluate this source
                   (callback hc observed_c) (callback hcerr observed_cerr)
                   None config s) in
  exists evs,
    trace s' =
      trace s ++
      EvEvaluate node root (length (heap s))
        (with_scriptId (scriptIdsCounter s) (with_interceptor used)) :: evs /\
    dispatched evs = [].
Proof.
  intros Hsrc Hused this s'.
  destruct (context_evaluate_resolved dc dcerr hc hcerr root default_config
              source node None config used s Hsrc Hused)
    as (_ & _ & evs & Ht & Hd).
  by exists evs.
Qed.

End Calls.

Lemma metaesEval_reports_what_the_parser_throws_witness :
  metaesEval failing_parse (answer (VNum 4)) (SourceText "2+")
    (callback true observed_c) (callback false observed_cerr) None (Some 1)
    sample_state =
  (Thrown (VObject [("name", VStr "SyntaxError")]),
   mkState (scriptIdsCounter sample_state)
     (<[1 := with_interceptor (mkConfigObj None (Some "s") None)]>
        (heap sample_state))
     (trace sample_state ++ [])).
Proof.
  apply (metaesEval_reports_what_the_parser_throws failing_parse
           (answer (VNum 4)) (SourceText "2+")
           (VObject [("name", VStr "SyntaxError")]) true false None 1
           (mkConfigObj None (Some "s") None) sample_state eq_refl eq_refl).
Defined.

Lemma metaesEval_without_continuations_is_silent_witness :
  let evaluate := fun (node : Node) (env : Environment) (config : ConfigObj) =>
                    BSuccess (VNum 4) (BFailure (VStr "late") (BThrow (VStr "boom"))) in
  let o' := with_scriptId (scriptIdsCounter sample_state)
              (with_interceptor (mkConfigObj (Some (host_fn 1)) None None)) in
  metaesEval failing_parse evaluate (SourceNode program) None None None
    (Some 0) sample_state =
  (match escapes (evaluate program (frame_of None) o') with
   | None => Normal tt
   | Some x => Thrown x
   end,
   mkState (if no_scriptId (mkConfigObj (Some (host_fn 1)) None None)
            then S (scriptIdsCounter sample_state)
            else scriptIdsCounter sample_state)
     (<[0 := o']> (heap sample_state))
     (trace sample_state ++ [EvEvaluate program (frame_of None) 0 o'])).
Proof.
  intros evaluate.
  apply (metaesEval_without_continuations_is_silent failing_parse evaluate
           (SourceNode program) program None 0
           (mkConfigObj (Some (host_fn 1)) None None) sample_state
           eq_refl eq_refl).
Defined.

Lemma metaesEval_without_config_takes_fresh_ids_witness :
  let s1 := snd (metaesEval failing_parse (answer (VNum 4)) (SourceNode program)
                   (callback true observed_c) (callback true observed_cerr)
                   None None sample_state) in
  let s2 := snd (metaesEval failing_parse (answer (VNum 4)) (SourceNode program)
                   (callback false observed_c) (callback true observed_cerr)
                   (Some (Bindings {["a" := VNum 2]})) None s1) in
  let n := scriptIdsCounter sample_state in
  dispatched (trace s2) =
    dispatched (trace sample_state) ++
    [mkConfigObj (Some noop) (Some (pretty n)) None;
     mkConfigObj (Some noop) (Some (pretty (S n))) None] /\
  pretty n <> pretty (S n) /\
  scriptIdsCounter s2 = S (S n) /\
  heap s2 = heap sample_state ++
            [mkConfigObj (Some noop) (Some (pretty n)) None;
             mkConfigObj (Some noop) (Some (pretty (S n))) None].
Proof.
  apply (metaesEval_without_config_takes_fresh_ids failing_parse
           (answer (VNum 4)) (SourceNode program) (SourceNode program)
           program program true true false true None
           (Some (Bindings {["a" := VNum 2]})) sample_state eq_refl eq_refl).
Defined.

Lemma context_evaluations_take_fresh_ids_witness :
  let d := mkConfigObj (Some (host_fn 1)) None None in
  let s1 := snd (MetaesContext_evaluate failing_parse (answer (VNum 4))
                   (mkMetaesContext (callback true observed_c)
                      (callback true observed_cerr)
                      (mkEnv {["store" := VNum 1]} None) 0)
                   (SourceNode program)
                   (callback false observed_c) (callback false observed_cerr)
                   None None sample_state) in
  let s2 := snd (MetaesContext_evaluate failing_parse (answer (VNum 4))
                   (mkMetaesContext (callback true observed_c)
                      (callback true observed_cerr)
                      (mkEnv {["store" := VNum 1]} None) 0)
                   (SourceNode program)
                   (callback true observed_c) (callback false observed_cerr)
                   (Some (mkEnvironmentBase {["a" := VNum 2]})) None s1) in
  let n := scriptIdsCounter sample_state in
  dispatched (trace s2) =
    dispatched (trace sample_state) ++
    [set_scriptId (pretty n) (with_interceptor d);
     set_scriptId (pretty (S n)) (with_interceptor d)] /\
  pretty n <> pretty (S n) /\
  heap s2 !! 0 = Some d.
Proof.
  apply (context_evaluations_take_fresh_ids failing_parse (answer (VNum 4))
           true true false false true false
           (mkEnv {["store" := VNum 1]} None) 0
           (SourceNode program) (SourceNode program) program program
           None (Some (mkEnvironmentBase {["a" := VNum 2]}))
           (mkConfigObj (Some (host_fn 1)) None None) sample_state
           eq_refl eq_refl eq_refl eq_refl).
Defined.

Lemma context_evaluate_without_environment_uses_the_root_witness :
  let s' := snd (MetaesContext_evaluate failing_parse (answer (VNum 4))
                   (mkMetaesContext (callback true observed_c)
                      (callback true observed_cerr)
                      (mkEnv {["store" := VNum 1]} None) 0)
                   (SourceNode program)
                   (callback false observed_c) (callback false observed_cerr)
                   None (Some 1) sample_state) in
  exists evs,
    trace s' =
      trace sample_state ++
      EvEvaluate program (mkEnv {["store" := VNum 1]} None)
        (length (heap sample_state))
        (with_scriptId (scriptIdsCounter sample_state)
           (with_interceptor (mkConfigObj None (Some "s") None))) :: evs /\
    dispatched evs = [].
Proof.
  apply (context_evaluate_without_environment_uses_the_root failing_parse
           (answer (VNum 4)) true true false false
           (mkEnv {["store" := VNum 1]} None) 0 (SourceNode program) program
           (Some 1) (mkConfigObj None (Some "s") None) sample_state
           eq_refl eq_refl).
Defined.

End MetaesFacts.

(** ** Facts about the flame interceptor *)

Module FlameFacts.
Import Flame.

Lemma snoc_lookup_parent (p : list nat) (n : nat) :
  p <> [] -> (p ++ [n]) !! (length (p ++ [n]) - 2) = last p.
Proof.
  intros Hp. rewrite length_app. simpl.
  replace (length p + 1 - 2) with (pred (length p)) by lia.
  rewrite lookup_app_l by (destruct p; [done|simpl; lia]).
  by rewrite last_lookup.
Qed.

(** The monadic interceptor never throws and computes [flame_step]. *)
Lemma flameInterceptor_step (evaluation : MetaFunction.Evaluation) (s : State) :
  flameInterceptor evaluation s = (Normal tt, flame_step evaluation s).
Proof.
  unfold flameInterceptor, flame_step, ensure_tracking, key_of, is_enter.
  unfold bind at 1. unfold gets at 1.
  destruct (trackingMap s !! prop_key (MetaFunction.ev_scriptId evaluation))
    as [tracking|] eqn:Hknown.
  - unfold bind at 1. unfold ret at 1.
    destruct (MetaFunction.ev_phase evaluation); [|reflexivity].
    unfold bind at 1. unfold alloc at 1. unfold bind at 1. simpl.
    unfold top.
    destruct (path tracking) as [|a p] eqn:Hp; [reflexivity|].
    assert (H1 : (1 <? length ((a :: p) ++ [length (nodes s)])) = true).
    { apply Nat.ltb_lt. rewrite length_app. simpl. lia. }
    rewrite H1, snoc_lookup_parent by done.
    destruct (last (a :: p)) as [parent|] eqn:Hlast; [reflexivity|].
    by apply last_None in Hlast.
  - unfold bind at 1. unfold bind at 1. unfold alloc at 1.
    unfold bind at 1. unfold set_tracking at 1. unfold modify at 1.
    unfold ret at 1. simpl.
    destruct (MetaFunction.ev_phase evaluation); reflexivity.
Qed.

Lemma intercept_all_steps (evaluations : list MetaFunction.Evaluation) :
  forall s, intercept_all evaluations s = (Normal tt, flame_steps evaluations s).
Proof.
  induction evaluations as [|evaluation rest IH]; intros s; simpl; [done|].
  unfold bind. by rewrite flameInterceptor_step, IH.
Qed.

(** *** Lists seen from their last element *)

Lemma snoc_or_nil {A} (l : list A) : l = [] \/ exists l' x, l = l' ++ [x].
Proof.
  destruct (decide (length l = 0)) as [H0|Hn].
  - left. by apply length_zero_iff_nil.
  - right. destruct (exists_last (l:=l)) as (l' & x & ->).
    + intros ->. done.
    + by exists l', x.
Qed.

Lemma removelast_snoc {A} (l : list A) (x : A) : removelast (l ++ [x]) = l.
Proof. apply removelast_last. Qed.

Lemma elem_of_removelast {A} (l : list A) (x : A) :
  x ∈ removelast l -> x ∈ l.
Proof.
  destruct (snoc_or_nil l) as [->|(l' & y & ->)]; [done|].
  rewrite removelast_snoc. set_solver.
Qed.

Lemma NoDup_removelast {A} (l : list A) : NoDup l -> NoDup (removelast l).
Proof.
  destruct (snoc_or_nil l) as [->|(l' & y & ->)]; [done|].
  rewrite removelast_snoc. by intros [? _]%NoDup_app.
Qed.

Lemma last_not_in_removelast {A} (l : list A) (x : A) :
  NoDup l -> last l = Some x -> x ∉ removelast l.
Proof.
  destruct (snoc_or_nil l) as [->|(l' & y & ->)]; [done|].
  rewrite removelast_snoc, last_snoc. intros (_ & Hy & _)%NoDup_app [= ->].
  intros Hin. apply (Hy x Hin). set_solver.
Qed.

Lemma last_owned (tracking : ScriptTracking) :
  last (owned tracking) = Some (top tracking).
Proof.
  unfold owned, top.
  destruct (snoc_or_nil (path tracking)) as [->|(l' & y & ->)]; [done|].
  by rewrite last_snoc, app_comm_cons, last_snoc.
Qed.

Lemma top_owned (tracking : ScriptTracking) : top tracking ∈ owned tracking.
Proof.
  pose proof (last_owned tracking) as Hl.
  apply last_Some in Hl as [l' ->]. set_solver.
Qed.

(** *** Links *)

Lemma linked_app (extra ns : list FlameNode) (p : list nat) :
  forall parent, linked ns parent p -> linked (ns ++ extra) parent p.
Proof.
  induction p as [|n p IH]; intros parent; simpl; [done|].
  intros [(node & Hnode & Hlast) Hrest]. split; [|by apply IH].
  exists node. split; [|done]. by apply lookup_app_l_Some.
Qed.

Lemma linked_alter (f : FlameNode -> FlameNode) (j : nat) (ns : list FlameNode)
    (p : list nat) :
  forall parent,
    linked ns parent p ->
    j ∉ removelast (parent :: p) ->
    linked (alter f j ns) parent p.
Proof.
  induction p as [|n p IH]; intros parent; simpl; [done|].
  intros [(node & Hnode & Hlast) Hrest] Hj.
  assert (Hcons : removelast (parent :: n :: p) = parent :: removelast (n :: p))
    by reflexivity.
  simpl in Hj. fold (removelast (n :: p)) in Hj.
  change (j ∉ parent :: removelast (n :: p)) in Hj.
  apply not_elem_of_cons in Hj as [Hne Hj]. split.
  - exists node. split; [|done]. by rewrite list_lookup_alter_ne.
  - by apply IH.
Qed.

Lemma linked_snoc (ns : list FlameNode) (n : nat) (p : list nat) :
  forall parent,
    linked ns parent p ->
    (exists node, ns !! default parent (last p) = Some node /\
                  last (children node) = Some n) ->
    linked ns parent (p ++ [n]).
Proof.
  induction p as [|m p IH]; intros parent Hp Hn.
  - split; [exact Hn|exact I].
  - destruct Hp as [Hm Hrest]. split; [exact Hm|]. apply IH; [exact Hrest|].
    destruct Hn as (node & Hnode & Hlast). exists node. split; [|done].
    destruct (snoc_or_nil p) as [->|(p' & y & ->)]; [exact Hnode|].
    rewrite last_snoc. rewrite app_comm_cons, last_snoc in Hnode. exact Hnode.
Qed.

Lemma linked_removelast (ns : list FlameNode) (p : list nat) :
  forall parent, linked ns parent p -> linked ns parent (removelast p).
Proof.
  induction p as [|m p IH]; intros parent Hp; [done|].
  destruct p as [|m' p]; [done|].
  change (removelast (m :: m' :: p)) with (m :: removelast (m' :: p)).
  destruct Hp as [Hm Hrest]. split; [done|]. by apply IH.
Qed.

(** *** The shape is maintained *)

Lemma owned_bound (s : State) (key : string) (tracking : ScriptTracking) (i : nat) :
  well_formed s -> trackingMap s !! key = Some tracking ->
  i ∈ owned tracking -> i < length (nodes s).
Proof.
  intros Hwf Hk Hi.
  pose proof (wf_bounded s Hwf key tracking Hk) as Hb.
  rewrite Forall_forall in Hb. by apply Hb.
Qed.

Lemma well_formed_init : well_formed init.
Proof. split; intros *; rewrite ?lookup_empty; done. Qed.

Lemma ensure_tracking_lookup (key : string) (s : State) :
  trackingMap (ensure_tracking key s).1 !! key = Some (ensure_tracking key s).2.
Proof.
  unfold ensure_tracking. destruct (trackingMap s !! key) eqn:Hk; simpl; [done|].
  by rewrite lookup_insert_eq.
Qed.

Lemma ensure_tracking_other (key key' : string) (s : State) :
  key' <> key ->
  trackingMap (ensure_tracking key s).1 !! key' = trackingMap s !! key'.
Proof.
  intros Hne. unfold ensure_tracking.
  destruct (trackingMap s !! key) eqn:Hk; simpl; [done|].
  by rewrite lookup_insert_ne.
Qed.

Lemma ensure_tracking_well_formed (key : string) (s : State) :
  well_formed s -> well_formed (ensure_tracking key s).1.
Proof.
  intros Hwf. unfold ensure_tracking.
  destruct (trackingMap s !! key) eqn:Hk; simpl; [done|].
  set (r := length (nodes s)).
  assert (Hold : forall k tr i, trackingMap s !! k = Some tr ->
                   i ∈ owned tr -> i < r).
  { intros k tr i Hktr Hi. by eapply owned_bound. }
  split; simpl.
  - intros k tr [[<- <-]|[Hne Hktr]]%lookup_insert_Some; rewrite length_app; simpl.
    + apply Forall_forall. unfold owned. simpl.
      intros i ->%list_elem_of_singleton. lia.
    + apply Forall_forall. intros i Hi. specialize (Hold k tr i Hktr Hi).
      unfold r in Hold. lia.
  - intros k tr [[<- <-]|[Hne Hktr]]%lookup_insert_Some.
    + unfold owned. simpl. apply NoDup_singleton.
    + by eapply wf_distinct.
  - intros k1 k2 tr1 tr2 Hk12
      [[<- <-]|[Hne1 Hk1]]%lookup_insert_Some
      [[<- <-]|[Hne2 Hk2]]%lookup_insert_Some i Hi; try done.
    + unfold owned in Hi. simpl in Hi. apply list_elem_of_singleton in Hi as ->.
      intros Hin. specialize (Hold k2 tr2 r Hk2 Hin). lia.
    + unfold owned. simpl. intros ->%list_elem_of_singleton.
      specialize (Hold k1 tr1 r Hk1 Hi). lia.
    + by eapply (wf_apart s Hwf k1 k2).
  - intros k tr [[<- <-]|[Hne Hktr]]%lookup_insert_Some; [done|].
    apply linked_app. by eapply wf_linked.
Qed.

Lemma enter_well_formed (key : string) (tracking : ScriptTracking)
    (node : FlameNode) (s : State) :
  well_formed s ->
  trackingMap s !! key = Some tracking ->
  well_formed
    (mkState
       (alter (add_child (length (nodes s))) (top tracking) (nodes s ++ [node]))
       (<[key := mkScriptTracking (root tracking)
                   (path tracking ++ [length (nodes s)])]> (trackingMap s))).
Proof.
  intros Hwf Hk. set (n := length (nodes s)).
  assert (Hnew : owned (mkScriptTracking (root tracking) (path tracking ++ [n]))
                 = owned tracking ++ [n]) by reflexivity.
  assert (Hfresh : forall k tr, trackingMap s !! k = Some tr -> n ∉ owned tr).
  { intros k tr Hktr Hin. pose proof (owned_bound s k tr n Hwf Hktr Hin). lia. }
  split; simpl.
  - intros k tr Hlook. rewrite length_alter, length_app. simpl. fold n.
    apply Forall_forall. intros i Hi.
    apply lookup_insert_Some in Hlook as [[<- <-]|[Hne Hktr]].
    + rewrite Hnew in Hi. apply elem_of_app in Hi as [Hi|Hi].
      * pose proof (owned_bound s key tracking i Hwf Hk Hi). lia.
      * apply list_elem_of_singleton in Hi. lia.
    + pose proof (owned_bound s k tr i Hwf Hktr Hi). lia.
  - intros k tr [[<- <-]|[Hne Hktr]]%lookup_insert_Some.
    + rewrite Hnew. apply NoDup_app. split; [by eapply wf_distinct|]. split.
      * intros i Hi ->%list_elem_of_singleton. by apply (Hfresh key tracking).
      * apply NoDup_singleton.
    + by eapply wf_distinct.
  - intros k1 k2 tr1 tr2 Hk12
      [[<- <-]|[Hne1 Hk1]]%lookup_insert_Some
      [[<- <-]|[Hne2 Hk2]]%lookup_insert_Some i Hi; try done.
    + rewrite Hnew in Hi. apply elem_of_app in Hi as [Hi|Hi].
      * by eapply (wf_apart s Hwf key k2).
      * apply list_elem_of_singleton in Hi as ->. by eapply Hfresh.
    + rewrite Hnew. intros [Hin|Hin]%elem_of_app.
      * by eapply (wf_apart s Hwf k1 key tr1 tracking).
      * apply list_elem_of_singleton in Hin as ->. by eapply (Hfresh k1 tr1).
    + by eapply (wf_apart s Hwf k1 k2).
  - intros k tr [[<- <-]|[Hne Hktr]]%lookup_insert_Some; simpl.
    + apply linked_snoc.
      * apply linked_alter.
        { apply linked_app. by eapply wf_linked. }
        apply last_not_in_removelast; [by eapply wf_distinct|].
        apply last_owned.
      * fold (top tracking).
        assert (Htop : top tracking < length (nodes s)).
        { eapply owned_bound; [done..|]. apply top_owned. }
        destruct (lookup_lt_is_Some_2 (nodes s) (top tracking) Htop) as [old Hold].
        exists (add_child n old). split.
        -- rewrite list_lookup_alter_eq. by rewrite (lookup_app_l_Some _ _ _ _ Hold).
        -- simpl. apply last_snoc.
    + apply linked_alter.
      { apply linked_app. by eapply wf_linked. }
      intros Hin%elem_of_removelast.
      by eapply (wf_apart s Hwf key k tracking tr); [..|apply top_owned|].
Qed.

Lemma exit_well_formed (key : string) (tracking : ScriptTracking) (s : State) :
  well_formed s ->
  trackingMap s !! key = Some tracking ->
  well_formed
    (mkState (nodes s)
       (<[key := mkScriptTracking (root tracking) (removelast (path tracking))]>
          (trackingMap s))).
Proof.
  intros Hwf Hk.
  assert (Hsub : forall i,
            i ∈ owned (mkScriptTracking (root tracking) (removelast (path tracking))) ->
            i ∈ owned tracking).
  { unfold owned. simpl. intros i [->|Hi]%elem_of_cons; [set_solver|].
    apply elem_of_removelast in Hi. set_solver. }
  split; simpl.
  - intros k tr [[<- <-]|[Hne Hktr]]%lookup_insert_Some.
    + apply Forall_forall. intros i Hi%Hsub. by eapply owned_bound.
    + by eapply wf_bounded.
  - intros k tr [[<- <-]|[Hne Hktr]]%lookup_insert_Some.
    + pose proof (wf_distinct s Hwf key tracking Hk) as Hnd.
      unfold owned in *. simpl. apply NoDup_cons in Hnd as [Hroot Hpath].
      apply NoDup_cons. split; [|by apply NoDup_removelast].
      intros Hin%elem_of_removelast. done.
    + by eapply wf_distinct.
  - intros k1 k2 tr1 tr2 Hk12
      [[<- <-]|[Hne1 Hk1]]%lookup_insert_Some
      [[<- <-]|[Hne2 Hk2]]%lookup_insert_Some i Hi; try done.
    + apply Hsub in Hi. by eapply (wf_apart s Hwf key k2).
    + intros Hin%Hsub. by eapply (wf_apart s Hwf k1 key tr1 tracking).
    + by eapply (wf_apart s Hwf k1 k2).
  - intros k tr [[<- <-]|[Hne Hktr]]%lookup_insert_Some; simpl.
    + apply linked_removelast. by eapply wf_linked.
    + by eapply wf_linked.
Qed.

Lemma flame_step_well_formed (evaluation : MetaFunction.Evaluation) (s : State) :
  well_formed s -> well_formed (flame_step evaluation s).
Proof.
  intros Hwf. unfold flame_step.
  pose proof (ensure_tracking_well_formed (key_of evaluation) s Hwf) as Hwf1.
  pose proof (ensure_tracking_lookup (key_of evaluation) s) as Hk1.
  destruct (ensure_tracking (key_of evaluation) s) as [s1 tracking].
  simpl in *. destruct (is_enter evaluation).
  - by apply enter_well_formed.
  - by apply exit_well_formed.
Qed.



(** *** Depth *)




Lemma tracking_step_other (key : string) (evaluation : MetaFunction.Evaluation)
    (s : State) :
  key_of evaluation <> key ->
  trackingMap (flame_step evaluation s) !! key = trackingMap s !! key.
Proof.
  intros Hne. rewrite <- (ensure_tracking_other (key_of evaluation) key s) by done.
  unfold flame_step.
  destruct (ensure_tracking (key_of evaluation) s) as [s1 tracking].
  destruct (is_enter evaluation); simpl; by rewrite lookup_insert_ne.
Qed.


(** *** Balanced sequences *)




(** *** Growth *)

Lemma grows_refl (s : State) : grows s s.
Proof. intros i node Hi. by exists node. Qed.

Lemma grows_trans (s1 s2 s3 : State) : grows s1 s2 -> grows s2 s3 -> grows s1 s3.
Proof.
  intros H12 H23 i node Hi.
  destruct (H12 i node Hi) as (node2 & Hi2 & Hv2 & Hc2).
  destruct (H23 i node2 Hi2) as (node3 & Hi3 & Hv3 & Hc3).
  exists node3. split; [done|]. split; [congruence|]. by etrans.
Qed.

Lemma grows_ensure (key : string) (s : State) : grows s (ensure_tracking key s).1.
Proof.
  unfold ensure_tracking. destruct (trackingMap s !! key); simpl;
    [apply grows_refl|].
  intros i node Hi. exists node. split; [by apply lookup_app_l_Some|done].
Qed.

Lemma grows_step (evaluation : MetaFunction.Evaluation) (s : State) :
  grows s (flame_step evaluation s).
Proof.
  eapply grows_trans; [apply (grows_ensure (key_of evaluation))|].
  unfold flame_step.
  destruct (ensure_tracking (key_of evaluation) s) as [s1 tracking]. simpl.
  destruct (is_enter evaluation); [|intros i node Hi; by exists node].
  intros i node Hi. simpl. rewrite list_lookup_alter.
  rewrite (lookup_app_l_Some _ _ _ _ Hi).
  case_decide as Htop.
  - subst i. rewrite (lookup_app_l_Some _ _ _ _ Hi). simpl.
    eexists. split; [reflexivity|]. split; [done|]. simpl.
    by apply prefix_app_r.
  - by exists node.
Qed.

(** X21.  The interceptor never removes anything from the tree: after any
    sequence of evaluations every node that existed is still there with the
    same value, and its children are the children it had, in the same order,
    possibly followed by new ones.  An "exit" shortens the path only. *)
Theorem flame_tree_only_grows (evaluations : list MetaFunction.Evaluation)
    (s : State) :
  grows s (snd (intercept_all evaluations s)).
Proof.
  rewrite intercept_all_steps. simpl. revert s.
  induction evaluations as [|evaluation rest IH]; intros s; simpl.
  - apply grows_refl.
  - eapply grows_trans; [apply grows_step|apply IH].
Qed.

(** *** Scripts do not interfere *)

Lemma nodes_step_other (key : string) (tracking : ScriptTracking)
    (evaluation : MetaFunction.Evaluation) (s : State) (i : nat) :
  well_formed s ->
  key_of evaluation <> key ->
  trackingMap s !! key = Some tracking ->
  i ∈ owned tracking ->
  nodes (flame_step evaluation s) !! i = nodes s !! i.
Proof.
  intros Hwf Hne Hk Hi.
  pose proof (owned_bound s key tracking i Hwf Hk Hi) as Hlt.
  pose proof (ensure_tracking_well_formed (key_of evaluation) s Hwf) as Hwf1.
  pose proof (ensure_tracking_lookup (key_of evaluation) s) as Hk1.
  pose proof (ensure_tracking_other (key_of evaluation) key s) as Hother.
  assert (Hn1 : nodes (ensure_tracking (key_of evaluation) s).1 !! i = nodes s !! i).
  { unfold ensure_tracking. destruct (trackingMap s !! key_of evaluation);
      simpl; [done|]. by rewrite lookup_app_l. }
  unfold flame_step.
  destruct (ensure_tracking (key_of evaluation) s) as [s1 tracking1].
  simpl in *. rewrite <- Hn1.
  destruct (is_enter evaluation); simpl; [|done].
  assert (Hlt1 : i < length (nodes s1)).
  { apply lookup_lt_is_Some. rewrite Hn1. by apply lookup_lt_is_Some. }
  rewrite list_lookup_alter_ne, lookup_app_l; [done..|].
  intros <-.
  assert (HkS : trackingMap s1 !! key = Some tracking).
  { rewrite Hother; [done|]. by intros ->. }
  exact (wf_apart s1 Hwf1 (key_of evaluation) key tracking1 tracking Hne Hk1 HkS
           (top tracking1) (top_owned tracking1) Hi).
Qed.

(** X22.  Evaluations of other scripts leave a script alone: its entry in
    the tracking map (root and path) is unchanged, and so are its root node
    and the nodes on its path, children included. *)
Theorem flame_scripts_do_not_interfere (key : string)
    (tracking : ScriptTracking) (evaluations : list MetaFunction.Evaluation)
    (s : State) :
  well_formed s ->
  trackingMap s !! key = Some tracking ->
  Forall (fun evaluation => key_of evaluation <> key) evaluations ->
  trackingMap (snd (intercept_all evaluations s)) !! key = Some tracking /\
  forall i, i ∈ owned tracking ->
    nodes (snd (intercept_all evaluations s)) !! i = nodes s !! i.
Proof.
  rewrite intercept_all_steps. simpl. intros Hwf Hk Hall. revert s Hwf Hk.
  induction Hall as [|evaluation rest Hne _ IH]; intros s Hwf Hk; simpl; [done|].
  assert (Hk' : trackingMap (flame_step evaluation s) !! key = Some tracking).
  { by rewrite tracking_step_other. }
  destruct (IH (flame_step evaluation s)
              (flame_step_well_formed evaluation s Hwf) Hk') as [Hmap Hnodes].
  split; [done|]. intros i Hi. rewrite Hnodes by done.
  by eapply nodes_step_other.
Qed.

Lemma flame_scripts_do_not_interfere_witness :
  trackingMap
    (snd (intercept_all
            [evaluation_of "1" MetaFunction.enter;
             evaluation_of "1" MetaFunction.enter]
            (flame_steps [evaluation_of "0" MetaFunction.enter] init))) !! "0" =
    Some (mkScriptTracking 0 [1]) /\
  forall i, i ∈ owned (mkScriptTracking 0 [1]) ->
    nodes (snd (intercept_all
                  [evaluation_of "1" MetaFunction.enter;
                   evaluation_of "1" MetaFunction.enter]
                  (flame_steps [evaluation_of "0" MetaFunction.enter] init))) !! i =
    nodes (flame_steps [evaluation_of "0" MetaFunction.enter] init) !! i.
Proof.
  apply (flame_scripts_do_not_interfere "0" (mkScriptTracking 0 [1])
           [evaluation_of "1" MetaFunction.enter;
            evaluation_of "1" MetaFunction.enter]
           (flame_steps [evaluation_of "0" MetaFunction.enter] init)).
  - apply flame_step_well_formed, well_formed_init.
  - vm_compute. reflexivity.
  - repeat constructor; discriminate.
Defined.

End FlameFacts.
